(** * go-remote-config: the client package (client/client.go)

    A shallow embedding of the configuration client: the construction of a
    [Client] with its synchronous first refresh, the background refresh
    goroutine with its ticker and its cancellable context, [Close], the five
    typed accessors and the package-level accessors that go through the
    [defaultClient] pointer.

    Go values of type [interface{}] are a tagged union, pointers are indices
    into explicit heaps, a nil pointer is [None], a run-time panic is the
    [Panic] outcome, and the state every function of the package reads or
    writes is one [World] record that is passed along. *)

From Stdlib Require Import Floats.
From stdpp Require Import base numbers list strings.

Open Scope string_scope.
Open Scope list_scope.
Open Scope Z_scope.

(** ** Go values and errors *)

(** A Go [error]: [nil] is [None], a non-nil error carries its message.
    [errors_New] is [errors.New]. *)
Definition error := string.
Definition errors_New (msg : string) : option error := Some msg.

(** What a function call does: it returns, or it panics. *)
Inductive result (A : Type) : Type :=
| Ret (a : A)
| Panic (msg : string).
Arguments Ret {A} a.
Arguments Panic {A} msg.

#[global] Instance result_ret : MRet result := fun A a => Ret a.
#[global] Instance result_bind : MBind result := fun A B k r =>
  match r with
  | Ret a => k a
  | Panic msg => Panic msg
  end.

Definition nil_dereference : string :=
  "invalid memory address or nil pointer dereference".

(** The dynamic value held by an [interface{}]: the dynamic types a decoded
    YAML or JSON document is made of, and [int64] as one more integer type
    that is not [int]. *)
#[warnings="-register-all"]
Inductive value : Type :=
| VNil
| VBool (b : bool)
| VInt (n : Z)                          (* int *)
| VInt64 (n : Z)                        (* int64 *)
| VFloat (f : float)                    (* float64 *)
| VString (s : string)                  (* string *)
| VSlice (l : list value)               (* []interface{} *)
| VMap (m : list (string * value)).     (* map[string]interface{} *)

(** The comma-ok type assertions [v, ok := x.(T)]: on a dynamic type other
    than [T] the first component is the zero value of [T] and [ok] is
    false. *)
Definition assert_string (x : value) : string * bool :=
  match x with
  | VString s => (s, true)
  | _ => ("", false)
  end.

Definition assert_int (x : value) : Z * bool :=
  match x with
  | VInt n => (n, true)
  | _ => (0, false)
  end.

Definition assert_float64 (x : value) : float * bool :=
  match x with
  | VFloat f => (f, true)
  | _ => (0%float, false)
  end.

Definition assert_slice (x : value) : list value * bool :=
  match x with
  | VSlice l => (l, true)
  | _ => ([], false)
  end.

(** The dynamic type of a value, as a decidable test per asserted type. *)
Definition is_string (x : value) : bool := snd (assert_string x).
Definition is_int (x : value) : bool := snd (assert_int x).
Definition is_float64 (x : value) : bool := snd (assert_float64 x).
Definition is_slice (x : value) : bool := snd (assert_slice x).

(** ** The packages the client imports *)

Module source.

(** [source.Repository]: the two methods the client calls on a backend
    whose state is a [B].  [Refresh] replaces the backend's state and
    reports an error or [nil]; [GetData] reads the current state. *)
Class Repository (B : Type) : Type := {
  Refresh : B -> B * option error;
  GetData : B -> string -> value * bool;
}.

End source.

Module yaml.

(** An [interface{}] argument that is either a pointer into the caller's
    variables or a plain value. *)
Inductive iface : Type :=
| IPtr (a : nat)
| IVal (v : value).

(** The caller's variables, by address. *)
Definition Store := list value.

(** [yaml.Marshal] and [yaml.Unmarshal] of gopkg.in/yaml.v3, whose code
    is not part of this repository: [Marshal] yields the document or an
    error, [Unmarshal] writes through its destination and reports an
    error or [nil]. *)
Class Codec : Type := {
  Bytes : Type;
  Marshal : value -> Bytes * option error;
  Unmarshal : Bytes -> iface -> Store -> Store * option error;
}.

End yaml.

Module time.

(** A [time.Ticker]: its period, and whether [Stop] has been called on
    it.  The flag records calls of [Stop] and nothing else: what becomes of
    the timer of a ticker that was never stopped is the runtime's affair
    (before Go 1.23 it is never reclaimed; from Go 1.23 it is, once nothing
    refers to the ticker). *)
Record Ticker : Type := mkTicker {
  period : Z;
  stopped : bool;
}.

(** [time.NewTicker] panics on a period that is not positive. *)
Definition NewTicker (d : Z) : result Ticker :=
  if d <=? 0
  then Panic "non-positive interval for NewTicker"
  else Ret (mkTicker d false).

(** [Ticker.Stop]: the call with which a program releases the ticker's
    timer itself. *)
Definition Stop (t : Ticker) : Ticker := mkTicker (period t) true.

End time.

Module context.

(** A context created by [context.WithCancel]: the context it derives
    from ([None] for [context.Background()]) and whether its own cancel
    function has been called. *)
Record Node : Type := mkNode {
  parent : option nat;
  cancelled : bool;
}.

(** A [context.Context] value: the background context or a derived one. *)
Definition Context := option nat.

(** [context.WithCancel(parent)]: a fresh derived context; its
    [CancelFunc] is identified with the context it cancels. *)
Definition WithCancel (cs : list Node) (p : Context) : list Node * nat :=
  (cs ++ [mkNode p false], length cs).

(** Calling the [CancelFunc] of context [c]. *)
Definition cancel (cs : list Node) (c : nat) : list Node :=
  match cs !! c with
  | Some n => <[c := mkNode (parent n) true]> cs
  | None => cs
  end.

(** Whether the channel [ctx.Done()] is closed: the context or one of the
    contexts it derives from has been cancelled.  The background context
    is never done. *)
Fixpoint done_upto (fuel : nat) (cs : list Node) (c : Context) : bool :=
  match fuel, c with
  | S fuel', Some i =>
      match cs !! i with
      | Some n => cancelled n || done_upto fuel' cs (parent n)
      | None => false
      end
  | _, _ => false
  end.

Definition Done (cs : list Node) (c : Context) : bool :=
  done_upto (length cs) cs c.

End context.

(** ** The client package *)

Module client.

(** [type Client struct].  [Repository] is a reference to a backend of
    the world, [cancel] is nil ([None]) or the cancel function of a
    context. *)
Record Client : Type := mkClient {
  Repository : nat;
  RefreshInterval : Z;
  isClosed : bool;
  cancel : option nat;
}.

(** Where a goroutine running [refresh(ctx, client)] stands: started by
    the [go] statement, waiting in the [select] of its loop, returned from
    the function, or stopped by a panic. *)
Inductive Status : Type :=
| Spawned
| Looping (ticker : time.Ticker)
| Returned (ticker : time.Ticker)
| Panicked (msg : string).

Record Goroutine : Type := mkGoroutine {
  g_ctx : nat;
  g_client : nat;
  g_status : Status;
}.

Section WithBackend.

Context {B : Type} {R : source.Repository B}.

(** The state of the process: the backends, the allocated clients, the
    package variable [defaultClient], the derived contexts, the
    goroutines started by [NewClient] and what was logged. *)
Record World : Type := mkWorld {
  repos : list B;
  clients : list Client;
  defaultClient : option nat;
  contexts : list context.Node;
  goroutines : list Goroutine;
  logs : list error;
}.

Definition set_repos (w : World) (r : list B) : World :=
  mkWorld r (clients w) (defaultClient w) (contexts w) (goroutines w) (logs w).
Definition set_clients (w : World) (c : list Client) : World :=
  mkWorld (repos w) c (defaultClient w) (contexts w) (goroutines w) (logs w).
Definition set_defaultClient (w : World) (d : option nat) : World :=
  mkWorld (repos w) (clients w) d (contexts w) (goroutines w) (logs w).
Definition set_contexts (w : World) (c : list context.Node) : World :=
  mkWorld (repos w) (clients w) (defaultClient w) c (goroutines w) (logs w).
Definition set_goroutines (w : World) (g : list Goroutine) : World :=
  mkWorld (repos w) (clients w) (defaultClient w) (contexts w) g (logs w).
Definition set_logs (w : World) (l : list error) : World :=
  mkWorld (repos w) (clients w) (defaultClient w) (contexts w) (goroutines w) l.

(** [logrus.WithError(err).Error(...)]. *)
Definition log_error (w : World) (err : error) : World :=
  set_logs w (logs w ++ [err]).

(** Reading a field through a [*Client]: a nil pointer panics. *)
Definition deref (w : World) (c : option nat) : result Client :=
  match c with
  | None => Panic nil_dereference
  | Some p =>
      match clients w !! p with
      | Some cl => Ret cl
      | None => Panic nil_dereference
      end
  end.

(** Calling a method of the interface value [cl.Repository]: a nil
    interface panics. *)
Definition backend (w : World) (cl : Client) : result B :=
  match repos w !! Repository cl with
  | Some b => Ret b
  | None => Panic nil_dereference
  end.

(** [func NewClient(ctx, repository, refreshInterval) (Client, error)],
    lines 25-52. *)
Definition NewClient (w : World) (ctx : context.Context) (repository : nat)
    (refreshInterval : Z) : result (World * (option nat * option error)) :=
  let '(cs, child) := context.WithCancel (contexts w) ctx in
  let w := set_contexts w cs in
  let client := mkClient repository refreshInterval false (Some child) in
  let p := length (clients w) in
  let w := set_clients w (clients w ++ [client]) in
  b ← backend w client;
  let '(b', err) := source.Refresh b in
  let w := set_repos w (<[repository := b']> (repos w)) in
  match err with
  | Some e => Ret (log_error w e, (None, Some e))
  | None =>
      let w := set_goroutines w (goroutines w ++ [mkGoroutine child p Spawned]) in
      let w := set_defaultClient w (Some p) in
      Ret (w, (Some p, None))
  end.

(** [func (c *Client) Close()], lines 98-104. *)
Definition Close (w : World) (c : option nat) : result World :=
  cl ← deref w c;
  match cancel cl with
  | None => Panic nil_dereference
  | Some k =>
      let w := set_contexts w (context.cancel (contexts w) k) in
      match c with
      | Some p =>
          Ret (set_clients w
                 (<[p := mkClient (Repository cl) (RefreshInterval cl) true (cancel cl)]>
                    (clients w)))
      | None => Panic nil_dereference
      end
  end.

(** *** The goroutine [refresh(ctx, client)], lines 57-72 *)

Definition set_status (w : World) (g : nat) (gr : Goroutine) (s : Status) : World :=
  set_goroutines w (<[g := mkGoroutine (g_ctx gr) (g_client gr) s]> (goroutines w)).

(** Line 58: the goroutine starts and creates its ticker. *)
Definition refresh_start (w : World) (g : nat) : option World :=
  gr ← goroutines w !! g;
  match g_status gr with
  | Spawned =>
      match cl ← deref w (Some (g_client gr)); time.NewTicker (RefreshInterval cl) with
      | Ret t => Some (set_status w g gr (Looping t))
      | Panic msg => Some (set_status w g gr (Panicked msg))
      end
  | _ => None
  end.

(** Lines 61-66: the [select] takes [case <-ticker.C]; the backend is
    refreshed, an error is logged, and the loop goes round again. *)
Definition refresh_tick (w : World) (g : nat) : option World :=
  gr ← goroutines w !! g;
  match g_status gr with
  | Looping t =>
      match deref w (Some (g_client gr)) with
      | Panic msg => Some (set_status w g gr (Panicked msg))
      | Ret cl =>
          match backend w cl with
          | Panic msg => Some (set_status w g gr (Panicked msg))
          | Ret b =>
              let '(b', err) := source.Refresh b in
              let w := set_repos w (<[Repository cl := b']> (repos w)) in
              match err with
              | Some e => Some (log_error w e)
              | None => Some w
              end
          end
      end
  | _ => None
  end.

(** Lines 67-69: the [select] takes [case <-ctx.Done()], which it can
    only when that channel is closed; the function returns. *)
Definition refresh_done (w : World) (g : nat) : option World :=
  gr ← goroutines w !! g;
  match g_status gr with
  | Looping t =>
      if context.Done (contexts w) (Some (g_ctx gr))
      then Some (set_status w g gr (Returned t))
      else None
  | _ => None
  end.

(** What can happen next in the process, as far as a refresh goroutine
    can tell: one of the goroutines moves, some goroutine closes a
    client, or the owner of a context cancels it. *)
Inductive Action : Type :=
| go_start (g : nat)
| select_tick (g : nat)
| select_done (g : nat)
| call_NewClient (ctx : context.Context) (repository : nat) (refreshInterval : Z)
| call_Close (c : nat)
| call_cancel (ctx : nat).

(** One action; [None] when the action cannot happen in [w]. *)
Definition step (w : World) (a : Action) : option World :=
  match a with
  | go_start g => refresh_start w g
  | select_tick g => refresh_tick w g
  | select_done g => refresh_done w g
  | call_NewClient ctx repository refreshInterval =>
      match NewClient w ctx repository refreshInterval with
      | Ret (w', _) => Some w'
      | Panic _ => None
      end
  | call_Close c =>
      match Close w (Some c) with
      | Ret w' => Some w'
      | Panic _ => None
      end
  | call_cancel k => Some (set_contexts w (context.cancel (contexts w) k))
  end.

Fixpoint run (w : World) (acts : list Action) : option World :=
  match acts with
  | [] => Some w
  | a :: acts => w' ← step w a; run w' acts
  end.

(** The pointers held in a world reach something: every goroutine was
    given an allocated client, and every allocated client a backend.
    Worlds made by [NewClient] are of this kind. *)
Definition linked (w : World) : Prop :=
  (∀ g gr, goroutines w !! g = Some gr → (g_client gr < length (clients w))%nat) ∧
  (∀ p cl, clients w !! p = Some cl → (Repository cl < length (repos w))%nat).

(** The process before any client exists. *)
Definition start (backends : list B) : World :=
  mkWorld backends [] None [] [] [].

(** The worlds in which no call of [NewClient] has succeeded yet. *)
Inductive never_constructed : World → Prop :=
| nc_start backends : never_constructed (start backends)
| nc_failed w ctx repository refreshInterval w' e :
    never_constructed w →
    NewClient w ctx repository refreshInterval = Ret (w', (None, Some e)) →
    never_constructed w'.

(** *** The typed accessors, lines 110-217 *)

Context {Y : yaml.Codec}.

(** The body of [func (c *Client) GetConfig(name, data, defaultValue)
    error], lines 110-135, with the parameter [data] as the local
    variable it is: the result is the last value of [data], the
    caller's variables and the returned error. *)
Definition GetConfig_body (w : World) (c : option nat) (name : string)
    (data defaultValue : yaml.iface) (st : yaml.Store)
    : result (yaml.iface * yaml.Store * option error) :=
  cl ← deref w c;
  if isClosed cl then
    let data := defaultValue in
    Ret (data, st, errors_New "client is closed")
  else
    b ← backend w cl;
    let '(config, ok) := source.GetData b name in
    if negb ok then
      let data := defaultValue in
      Ret (data, st, errors_New "config not found")
    else
      let '(marshal, err) := yaml.Marshal config in
      match err with
      | Some e =>
          let data := defaultValue in
          Ret (data, st, Some e)
      | None =>
          let '(st, err) := yaml.Unmarshal marshal data st in
          match err with
          | Some e =>
              let data := defaultValue in
              Ret (data, st, Some e)
          | None => Ret (data, st, None)
          end
      end.

(** What a caller of [GetConfig] gets: its variables after the call and
    the error.  The parameter [data] ends with the call. *)
Definition Client_GetConfig (w : World) (c : option nat) (name : string)
    (data defaultValue : yaml.iface) (st : yaml.Store)
    : result (yaml.Store * option error) :=
  r ← GetConfig_body w c name data defaultValue st;
  Ret (snd (fst r), snd r).

(** The [for _, v := range configArray] loop of lines 153-159, from the
    elements still to visit and the [output] built so far, up to the
    [return] that ends the function. *)
Fixpoint range_configArray (defaultValue : list string) (configArray : list value)
    (output : list string) : list string * option error :=
  match configArray with
  | [] => (output, None)
  | v :: rest =>
      let '(str, ok) := assert_string v in
      if negb ok then
        (defaultValue, errors_New "config is not an array of strings")
      else range_configArray defaultValue rest (output ++ [str])
  end.

(** [func (c *Client) GetConfigArrayOfStrings], lines 138-162. *)
Definition Client_GetConfigArrayOfStrings (w : World) (c : option nat)
    (name : string) (defaultValue : list string)
    : result (list string * option error) :=
  cl ← deref w c;
  if isClosed cl then Ret (defaultValue, errors_New "client is closed")
  else
    b ← backend w cl;
    let '(config, ok) := source.GetData b name in
    if negb ok then Ret (defaultValue, errors_New "config not found")
    else
      let '(configArray, ok) := assert_slice config in
      if negb ok then
        Ret (defaultValue, errors_New "config is not an array of strings")
      else Ret (range_configArray defaultValue configArray []).

(** [func (c *Client) GetConfigString], lines 165-181. *)
Definition Client_GetConfigString (w : World) (c : option nat)
    (name : string) (defaultValue : string)
    : result (string * option error) :=
  cl ← deref w c;
  if isClosed cl then Ret (defaultValue, errors_New "client is closed")
  else
    b ← backend w cl;
    let '(config, ok) := source.GetData b name in
    if negb ok then Ret (defaultValue, errors_New "config not found")
    else
      let '(configString, ok) := assert_string config in
      if negb ok then Ret (defaultValue, errors_New "config is not a string")
      else Ret (configString, None).

(** [func (c *Client) GetConfigInt], lines 184-199. *)
Definition Client_GetConfigInt (w : World) (c : option nat)
    (name : string) (defaultValue : Z) : result (Z * option error) :=
  cl ← deref w c;
  if isClosed cl then Ret (defaultValue, errors_New "client is closed")
  else
    b ← backend w cl;
    let '(config, ok) := source.GetData b name in
    if negb ok then Ret (defaultValue, errors_New "config not found")
    else
      let '(configInt, ok) := assert_int config in
      if negb ok then Ret (defaultValue, errors_New "config is not an int64")
      else Ret (configInt, None).

(** [func (c *Client) GetConfigFloat], lines 202-217. *)
Definition Client_GetConfigFloat (w : World) (c : option nat)
    (name : string) (defaultValue : float) : result (float * option error) :=
  cl ← deref w c;
  if isClosed cl then Ret (defaultValue, errors_New "client is closed")
  else
    b ← backend w cl;
    let '(config, ok) := source.GetData b name in
    if negb ok then Ret (defaultValue, errors_New "config not found")
    else
      let '(configInt, ok) := assert_float64 config in
      if negb ok then Ret (defaultValue, errors_New "config is not an int64")
      else Ret (configInt, None).

(** *** The package-level accessors, lines 74-92: the same calls on
    [defaultClient] *)

Definition GetConfig (w : World) (name : string)
    (data defaultValue : yaml.iface) (st : yaml.Store) :=
  Client_GetConfig w (defaultClient w) name data defaultValue st.

Definition GetConfigArrayOfStrings (w : World) (name : string)
    (defaultValue : list string) :=
  Client_GetConfigArrayOfStrings w (defaultClient w) name defaultValue.

Definition GetConfigString (w : World) (name : string) (defaultValue : string) :=
  Client_GetConfigString w (defaultClient w) name defaultValue.

Definition GetConfigInt (w : World) (name : string) (defaultValue : Z) :=
  Client_GetConfigInt w (defaultClient w) name defaultValue.

Definition GetConfigFloat (w : World) (name : string) (defaultValue : float) :=
  Client_GetConfigFloat w (defaultClient w) name defaultValue.

(** The errors with which the accessors report a value of another type. *)
Definition type_mismatch_error (e : option error) : Prop :=
  e = Some "config is not a string" \/
  e = Some "config is not an int64" \/
  e = Some "config is not an array of strings".

(** The dynamic type an array of strings has: a slice whose elements
    are all strings. *)
Definition is_string_slice (x : value) : bool :=
  is_slice x && forallb is_string (fst (assert_slice x)).

(** The strings held by a slice of strings. *)
Definition strings_of (l : list value) : list string :=
  map (λ v, fst (assert_string v)) l.

End WithBackend.

Arguments World B : clear implicits.

End client.

(** ** Test doubles *)

Module stub.

(** A backend that counts the calls of [Refresh]; call number [n] fails
    when the [n]-th entry of [script] says so, and every call after the
    end of the script when [then_fails] does.  Its snapshot is a fixed
    list of keys and values. *)
Record Stub : Type := mkStub {
  calls : nat;
  script : list bool;
  then_fails : bool;
  snapshot : list (string * value);
}.

Fixpoint lookup_key (l : list (string * value)) (name : string) : option value :=
  match l with
  | [] => None
  | (k, v) :: rest => if String.eqb k name then Some v else lookup_key rest name
  end.

#[global] Instance Stub_Repository : source.Repository Stub := {
  Refresh s :=
    (mkStub (S (calls s)) (script s) (then_fails s) (snapshot s),
     if nth (calls s) (script s) (then_fails s)
     then Some "refresh failed" else None);
  GetData s name :=
    match lookup_key (snapshot s) name with
    | Some v => (v, true)
    | None => (VNil, false)
    end;
}.

(** Fails on the first call only / on every call but the first. *)
Definition fails_first : Stub :=
  mkStub 0 [true] false [("name", VString "remote")].
Definition fails_later : Stub :=
  mkStub 0 [false] true
    [("name", VString "remote"); ("port", VInt 8080); ("ratio", VFloat 3%float);
     ("tags", VSlice [VString "a"; VString "b"]);
     ("mixed", VSlice [VString "a"; VString "b"; VInt 3]);
     ("server", VMap [("port", VString "http"); ("host", VString "example.org")])].

(** Two values of one dynamic type. *)
Definition same_type (a b : value) : bool :=
  match a, b with
  | VNil, VNil | VBool _, VBool _ | VInt _, VInt _ | VInt64 _, VInt64 _
  | VFloat _, VFloat _ | VString _, VString _ | VSlice _, VSlice _
  | VMap _, VMap _ => true
  | _, _ => false
  end.

(** A decoder that, on a field of the document whose type does not fit
    the destination, keeps the fields it could decode and reports the
    error at the end, which is what gopkg.in/yaml.v3 documents for
    [Unmarshal] (decoding continues partially and a [TypeError] is
    returned).  A destination struct is a [VMap] of its fields, each
    holding a value of the field's type. *)
Definition decode_scalar (doc cur : value) : value * bool :=
  if same_type doc cur then (doc, true) else (cur, false).

Fixpoint decode_fields (doc fields : list (string * value))
    : list (string * value) * bool :=
  match fields with
  | [] => ([], true)
  | (k, cur) :: rest =>
      let '(rest', ok_rest) := decode_fields doc rest in
      match lookup_key doc k with
      | None => ((k, cur) :: rest', ok_rest)
      | Some v =>
          let '(v', ok) := decode_scalar v cur in
          ((k, v') :: rest', ok && ok_rest)
      end
  end.

Definition decode (doc cur : value) : value * bool :=
  match doc, cur with
  | VMap d, VMap fields =>
      let '(fields', ok) := decode_fields d fields in (VMap fields', ok)
  | _, _ => decode_scalar doc cur
  end.

Definition partial_codec : yaml.Codec := {|
  yaml.Bytes := value;
  yaml.Marshal v := (v, None);
  yaml.Unmarshal doc data st :=
    match data with
    | yaml.IPtr a =>
        match st !! a with
        | Some cur =>
            let '(v, ok) := decode doc cur in
            (<[a := v]> st, if ok then None else Some "yaml: unmarshal errors")
        | None => (st, Some "yaml: invalid destination")
        end
    | yaml.IVal _ => (st, Some "yaml: destination is not a pointer")
    end;
|}.

End stub.

(** ** What the properties below speak about *)

Module outcome.

Import client.

Section WithBackend.

Context {B : Type} {R : source.Repository B}.

(** [NewClient] failed: it returned a nil client and an error, and the
    goroutines are the ones there were. *)
Definition construction_failed (w : World B)
    (r : result (World B * (option nat * option error))) : Prop :=
  ∃ w' e, r = Ret (w', (None, Some e)) ∧ goroutines w' = goroutines w.

(** [NewClient] succeeded: it returned no error and a pointer to an
    open client on the given backend, and one more goroutine, which
    runs [refresh] for that client, has been started. *)
Definition construction_succeeded (w : World B) (repository : nat)
    (r : result (World B * (option nat * option error))) : Prop :=
  ∃ w' p cl g,
    r = Ret (w', (Some p, None)) ∧
    clients w' !! p = Some cl ∧
    Repository cl = repository ∧ isClosed cl = false ∧
    goroutines w' = goroutines w ++ [g] ∧
    g_client g = p ∧ cancel cl = Some (g_ctx g) ∧ g_status g = Spawned.

(** The receiver [c] is an open client whose backend is [b]. *)
Definition reads_from (w : World B) (c : option nat) (b : B) : Prop :=
  ∃ cl, deref w c = Ret cl ∧ isClosed cl = false ∧ backend w cl = Ret b.

(** The receiver [c] is a client whose closed flag is set. *)
Definition closed (w : World B) (c : option nat) : Prop :=
  ∃ cl, deref w c = Ret cl ∧ isClosed cl = true.

(** Goroutine [g] runs [refresh] on the context [k] and is in state
    [s]. *)
Definition goroutine_at (w : World B) (g k : nat) (s : Status) : Prop :=
  ∃ gr, goroutines w !! g = Some gr ∧ g_ctx gr = k ∧ g_status gr = s.

(** The backend of the client that goroutine [g] was given is [b]. *)
Definition refreshes (w : World B) (g : nat) (b : B) : Prop :=
  ∃ gr cl, goroutines w !! g = Some gr ∧ clients w !! g_client gr = Some cl ∧
           repos w !! Repository cl = Some b.

End WithBackend.

End outcome.

(** Concrete processes on the test doubles. *)
Module scenario.

Import client stub.

Definition w0 : World Stub := start [fails_first; fails_later].

Definition world_of {A} (r : result (World Stub * A)) : World Stub :=
  match r with
  | Ret (w, _) => w
  | Panic _ => w0
  end.

(** After a construction that failed, and after one that succeeded. *)
Definition w_failed : World Stub := world_of (NewClient w0 None 0 10).
Definition w_open : World Stub := world_of (NewClient w0 None 1 10).

(** The client of [w_open] closed. *)
Definition w_closed : World Stub :=
  match Close w_open (Some 0%nat) with
  | Ret w => w
  | Panic _ => w_open
  end.

(** The goroutine of [w_open] in its loop. *)
Definition w_looping : World Stub := default w_open (run w_open [go_start 0]).

(** The same after a tick, a call of [Close] and the [Done] case. *)
Definition w_returned : World Stub :=
  default w_looping (run w_looping [select_tick 0; call_Close 0; select_done 0]).

(** A destination struct with an integer field and a string field, and a
    string variable. *)
Definition server_var : value := VMap [("port", VInt 0); ("host", VString "")].
Definition name_var : value := VString "old".

End scenario.

(** ** Histories *)

Module history.

Import client.

Section WithBackend.

Context {B : Type} {R : source.Repository B}.

(** [n] calls of [Refresh] in a row on a backend: the backend they leave
    and the errors they returned, in the order of the calls. *)
Fixpoint Refresh_times (n : nat) (b : B) : B * list error :=
  match n with
  | O => (b, [])
  | S n =>
      let '(b', err) := source.Refresh b in
      let '(b'', errs) := Refresh_times n b' in
      (b'', option_list err ++ errs)
  end.

(** Every goroutine was given an allocated client whose [cancel] cancels
    the context the goroutine waits on, and that context exists.  This is
    how [NewClient] starts goroutines. *)
Definition paired (w : World B) : Prop :=
  ∀ g gr, goroutines w !! g = Some gr →
    ∃ cl n, clients w !! g_client gr = Some cl ∧
            cancel cl = Some (g_ctx gr) ∧
            contexts w !! g_ctx gr = Some n.

(** The errors the scalar accessors make themselves. *)
Definition accessor_error (e : error) : Prop :=
  e = "client is closed" ∨ e = "config not found" ∨ type_mismatch_error (Some e).

End WithBackend.

(** A process with two backends whose first refresh succeeds, a client on
    the first, and then a client on the second as well. *)
Definition always_ok : stub.Stub :=
  stub.mkStub 0 [] false [("name", VString "second")].

Definition v0 : World stub.Stub := start [stub.fails_later; always_ok].
Definition v1 : World stub.Stub := scenario.world_of (NewClient v0 None 0 10).
Definition v2 : World stub.Stub := scenario.world_of (NewClient v1 None 1 0).

(** [v2] with the goroutine of its first client in its loop. *)
Definition v3 : World stub.Stub := default v2 (run v2 [go_start 0]).

End history.

(** ** Properties *)

Import client outcome.

Section Construction.

Context {B : Type} {R : source.Repository B}.

Implicit Types (w : World B) (ctx : context.Context) (b : B).

(** [NewClient] on a live backend, step by step: one context, one
    client, one call of [Refresh], and then the error decides. *)
Lemma NewClient_eq w ctx repository refreshInterval b :
  repos w !! repository = Some b →
  NewClient w ctx repository refreshInterval =
    let child := length (contexts w) in
    let p := length (clients w) in
    let w1 := set_clients
                (set_contexts w (contexts w ++ [context.mkNode ctx false]))
                (clients w ++ [mkClient repository refreshInterval false (Some child)]) in
    let w2 := set_repos w1 (<[repository := fst (source.Refresh b)]> (repos w)) in
    match snd (source.Refresh b) with
    | Some e => Ret (log_error w2 e, (None, Some e))
    | None =>
        Ret (set_defaultClient
               (set_goroutines w2 (goroutines w ++ [mkGoroutine child p Spawned]))
               (Some p),
             (Some p, None))
    end.
Proof.
  intros Hb. unfold NewClient, context.WithCancel, backend. simpl.
  rewrite Hb. simpl. destruct (source.Refresh b) as [b' [e|]]; reflexivity.
Qed.

Lemma NewClient_nil_repository w ctx repository refreshInterval :
  repos w !! repository = None →
  NewClient w ctx repository refreshInterval = Panic nil_dereference.
Proof.
  intros Hb. unfold NewClient, context.WithCancel, backend. simpl.
  rewrite Hb. reflexivity.
Qed.

(** C1. [NewClient] fails (a nil client, an error, no goroutine started)
    if and only if its one call of [Refresh] on the backend returns an
    error; when that call succeeds [NewClient] returns an open client and
    starts its goroutine, whatever later calls of [Refresh] would do. *)
Theorem NewClient_fails_iff_initial_Refresh_fails
    w ctx repository refreshInterval b :
  repos w !! repository = Some b →
  (construction_failed w (NewClient w ctx repository refreshInterval)
     ↔ snd (source.Refresh b) ≠ None) ∧
  (snd (source.Refresh b) = None →
     construction_succeeded w repository
       (NewClient w ctx repository refreshInterval)).
Proof.
  intros Hb. rewrite (NewClient_eq _ _ _ _ _ Hb). cbv zeta.
  destruct (snd (source.Refresh b)) as [e|] eqn:He; split.
  - split; [congruence|]. intros _. eexists _, e. split; reflexivity.
  - congruence.
  - split; [|congruence]. intros (w' & e & Hr & _). discriminate Hr.
  - intros _. eexists _, _, _, _. split; [reflexivity|]. simpl.
    rewrite lookup_app_r by reflexivity. rewrite Nat.sub_diag. simpl.
    repeat split; reflexivity.
Qed.

(** What [NewClient] does to [defaultClient], by the error it returns. *)
Lemma NewClient_defaultClient w ctx repository refreshInterval w' c err :
  NewClient w ctx repository refreshInterval = Ret (w', (c, err)) →
  match err with
  | Some _ => c = None ∧ defaultClient w' = defaultClient w
  | None => is_Some c ∧ defaultClient w' = c
  end.
Proof.
  destruct (repos w !! repository) as [b|] eqn:Hb.
  - rewrite (NewClient_eq _ _ _ _ _ Hb). cbv zeta.
    destruct (snd (source.Refresh b)) as [e|]; intros [= <- <- <-]; simpl; eauto.
  - rewrite (NewClient_nil_repository _ _ _ _ Hb). discriminate.
Qed.

(** C10. When [NewClient] returns an error, the client it returns is nil
    and [defaultClient] is what it was before the call, so the
    package-level accessors go to the client they went to before;
    [defaultClient] is assigned, to the returned client, only when the first
    refresh has succeeded. *)
Theorem failed_NewClient_keeps_defaultClient
    w ctx repository refreshInterval w' c err :
  NewClient w ctx repository refreshInterval = Ret (w', (c, err)) →
  (is_Some err →
     c = None ∧ defaultClient w' = defaultClient w ∧
     ∀ name d, GetConfigString w' name d
               = Client_GetConfigString w' (defaultClient w) name d) ∧
  (err = None → is_Some c ∧ defaultClient w' = c).
Proof.
  intros Hnew. apply NewClient_defaultClient in Hnew.
  destruct err as [e|]; destruct Hnew as [Hc Hd]; split.
  - intros _. split; [exact Hc|]. split; [exact Hd|].
    intros name d. unfold GetConfigString. rewrite Hd. reflexivity.
  - discriminate.
  - intros [e He]. discriminate He.
  - intros _. split; assumption.
Qed.

Lemma never_constructed_defaultClient w :
  never_constructed w → defaultClient w = None.
Proof.
  induction 1 as [|w ctx repository refreshInterval w' e _ IH Hnew]; [reflexivity|].
  apply NewClient_defaultClient in Hnew as [_ ->]. exact IH.
Qed.

End Construction.

Section Accessors.

Context {B : Type} {R : source.Repository B} {Y : yaml.Codec}.

Implicit Types (w : World B) (c : option nat) (b : B) (name : string) (v : value).

Ltac open_accessor Hopen :=
  let cl := fresh "cl" in
  let Hc := fresh "Hc" in
  let Ho := fresh "Ho" in
  let Hb := fresh "Hb" in
  destruct Hopen as (cl & Hc & Ho & Hb);
  unfold Client_GetConfigString, Client_GetConfigInt, Client_GetConfigFloat,
    Client_GetConfigArrayOfStrings, Client_GetConfig, GetConfig_body;
  rewrite Hc; simpl; rewrite Ho, Hb; simpl.

Ltac closed_accessor Hclosed :=
  let cl := fresh "cl" in
  let Hc := fresh "Hc" in
  let Ho := fresh "Ho" in
  destruct Hclosed as (cl & Hc & Ho);
  unfold Client_GetConfigString, Client_GetConfigInt, Client_GetConfigFloat,
    Client_GetConfigArrayOfStrings, Client_GetConfig, GetConfig_body;
  rewrite Hc; simpl; rewrite Ho; simpl.

(** *** A closed client *)

Lemma closed_GetConfigString w c name d :
  closed w c → Client_GetConfigString w c name d = Ret (d, Some "client is closed").
Proof. intros Hcl. closed_accessor Hcl. reflexivity. Qed.

Lemma closed_GetConfigInt w c name d :
  closed w c → Client_GetConfigInt w c name d = Ret (d, Some "client is closed").
Proof. intros Hcl. closed_accessor Hcl. reflexivity. Qed.

Lemma closed_GetConfigFloat w c name d :
  closed w c → Client_GetConfigFloat w c name d = Ret (d, Some "client is closed").
Proof. intros Hcl. closed_accessor Hcl. reflexivity. Qed.

Lemma closed_GetConfigArrayOfStrings w c name d :
  closed w c →
  Client_GetConfigArrayOfStrings w c name d = Ret (d, Some "client is closed").
Proof. intros Hcl. closed_accessor Hcl. reflexivity. Qed.

(** The structured accessor on a closed client: the error is all the
    caller gets; the default ends up in the parameter. *)
Lemma closed_GetConfig w c name data dv st :
  closed w c →
  GetConfig_body w c name data dv st = Ret (dv, st, Some "client is closed") ∧
  Client_GetConfig w c name data dv st = Ret (st, Some "client is closed").
Proof. intros Hcl. split; closed_accessor Hcl; reflexivity. Qed.

(** [Close] sets the closed flag of the client it is called on and
    cancels the context of its goroutine. *)
Lemma Close_closed w p cl k :
  clients w !! p = Some cl → cancel cl = Some k →
  ∃ w', Close w (Some p) = Ret w' ∧ closed w' (Some p) ∧
        contexts w' = context.cancel (contexts w) k ∧
        repos w' = repos w ∧ goroutines w' = goroutines w.
Proof.
  intros Hp Hk. unfold Close. simpl. rewrite Hp. simpl. rewrite Hk.
  eexists. split; [reflexivity|]. split; [|repeat split].
  eexists. simpl. rewrite list_lookup_insert_eq by (eapply lookup_lt_Some; eauto).
  split; reflexivity.
Qed.

(** *** An open client and a key that is not there *)

Lemma not_found_GetConfigString w c b name d x :
  reads_from w c b → source.GetData b name = (x, false) →
  Client_GetConfigString w c name d = Ret (d, Some "config not found").
Proof. intros Ho Hg. open_accessor Ho. rewrite Hg. reflexivity. Qed.

Lemma not_found_GetConfigInt w c b name d x :
  reads_from w c b → source.GetData b name = (x, false) →
  Client_GetConfigInt w c name d = Ret (d, Some "config not found").
Proof. intros Ho Hg. open_accessor Ho. rewrite Hg. reflexivity. Qed.

Lemma not_found_GetConfigFloat w c b name d x :
  reads_from w c b → source.GetData b name = (x, false) →
  Client_GetConfigFloat w c name d = Ret (d, Some "config not found").
Proof. intros Ho Hg. open_accessor Ho. rewrite Hg. reflexivity. Qed.

Lemma not_found_GetConfigArrayOfStrings w c b name d x :
  reads_from w c b → source.GetData b name = (x, false) →
  Client_GetConfigArrayOfStrings w c name d = Ret (d, Some "config not found").
Proof. intros Ho Hg. open_accessor Ho. rewrite Hg. reflexivity. Qed.

Lemma not_found_GetConfig w c b name data dv st x :
  reads_from w c b → source.GetData b name = (x, false) →
  GetConfig_body w c name data dv st = Ret (dv, st, Some "config not found") ∧
  Client_GetConfig w c name data dv st = Ret (st, Some "config not found").
Proof. intros Ho Hg. split; open_accessor Ho; rewrite Hg; reflexivity. Qed.

(** What does hold on a closed client, whatever the backend has for the
    key: each scalar accessor returns the default it was given with the
    closed-client error, and [GetConfig] returns that error and touches
    none of the caller's variables. *)
Theorem closed_client_accessors w c name :
  closed w c →
  (∀ d, Client_GetConfigString w c name d = Ret (d, Some "client is closed")) ∧
  (∀ d, Client_GetConfigInt w c name d = Ret (d, Some "client is closed")) ∧
  (∀ d, Client_GetConfigFloat w c name d = Ret (d, Some "client is closed")) ∧
  (∀ d, Client_GetConfigArrayOfStrings w c name d = Ret (d, Some "client is closed")) ∧
  (∀ data dv st, Client_GetConfig w c name data dv st = Ret (st, Some "client is closed")).
Proof.
  intros Hcl. split; [|split; [|split; [|split]]]; intros.
  - apply closed_GetConfigString, Hcl.
  - apply closed_GetConfigInt, Hcl.
  - apply closed_GetConfigFloat, Hcl.
  - apply closed_GetConfigArrayOfStrings, Hcl.
  - apply closed_GetConfig, Hcl.
Qed.

(** What does hold on an open client and a key the backend reports as not
    found: each scalar accessor returns the default it was given with the
    not-found error, and [GetConfig] returns that error and touches none of
    the caller's variables. *)
Theorem not_found_accessors w c b name x :
  reads_from w c b → source.GetData b name = (x, false) →
  (∀ d, Client_GetConfigString w c name d = Ret (d, Some "config not found")) ∧
  (∀ d, Client_GetConfigInt w c name d = Ret (d, Some "config not found")) ∧
  (∀ d, Client_GetConfigFloat w c name d = Ret (d, Some "config not found")) ∧
  (∀ d, Client_GetConfigArrayOfStrings w c name d = Ret (d, Some "config not found")) ∧
  (∀ data dv st, Client_GetConfig w c name data dv st = Ret (st, Some "config not found")).
Proof.
  intros Ho Hg. split; [|split; [|split; [|split]]]; intros.
  - eapply not_found_GetConfigString; eauto.
  - eapply not_found_GetConfigInt; eauto.
  - eapply not_found_GetConfigFloat; eauto.
  - eapply not_found_GetConfigArrayOfStrings; eauto.
  - eapply not_found_GetConfig; eauto.
Qed.

(** *** An open client and a key that is there *)

Lemma found_GetConfigString w c b name v d :
  reads_from w c b → source.GetData b name = (v, true) →
  Client_GetConfigString w c name d =
    Ret (if is_string v then (fst (assert_string v), None)
         else (d, Some "config is not a string")).
Proof.
  intros Ho Hg. open_accessor Ho. rewrite Hg. simpl.
  unfold is_string. destruct (assert_string v) as [s [|]]; reflexivity.
Qed.

Lemma found_GetConfigInt w c b name v d :
  reads_from w c b → source.GetData b name = (v, true) →
  Client_GetConfigInt w c name d =
    Ret (if is_int v then (fst (assert_int v), None)
         else (d, Some "config is not an int64")).
Proof.
  intros Ho Hg. open_accessor Ho. rewrite Hg. simpl.
  unfold is_int. destruct (assert_int v) as [s [|]]; reflexivity.
Qed.

Lemma found_GetConfigFloat w c b name v d :
  reads_from w c b → source.GetData b name = (v, true) →
  Client_GetConfigFloat w c name d =
    Ret (if is_float64 v then (fst (assert_float64 v), None)
         else (d, Some "config is not an int64")).
Proof.
  intros Ho Hg. open_accessor Ho. rewrite Hg. simpl.
  unfold is_float64. destruct (assert_float64 v) as [s [|]]; reflexivity.
Qed.

(** The loop over the elements: either every element is a string and
    the result is the output so far followed by all of them, or the
    result is the default and the error. *)
Lemma range_configArray_eq d l output :
  range_configArray d l output =
    if forallb is_string l then (output ++ strings_of l, None)
    else (d, Some "config is not an array of strings").
Proof.
  revert output. induction l as [|x l IH]; intros output; simpl.
  - rewrite app_nil_r. reflexivity.
  - unfold is_string at 1. destruct (assert_string x) as [s [|]] eqn:Hx; simpl.
    + rewrite IH, <- app_assoc. reflexivity.
    + reflexivity.
Qed.

Lemma found_GetConfigArrayOfStrings w c b name v d :
  reads_from w c b → source.GetData b name = (v, true) →
  Client_GetConfigArrayOfStrings w c name d =
    Ret (if is_string_slice v then (strings_of (fst (assert_slice v)), None)
         else (d, Some "config is not an array of strings")).
Proof.
  intros Ho Hg. open_accessor Ho. rewrite Hg. simpl.
  unfold is_string_slice, is_slice.
  destruct (assert_slice v) as [l [|]]; simpl; [|reflexivity].
  rewrite range_configArray_eq. reflexivity.
Qed.

Lemma strings_of_VString ss : strings_of (VString <$> ss) = ss.
Proof.
  unfold strings_of. induction ss as [|s ss IH]; csimpl; [|rewrite IH]; reflexivity.
Qed.

Lemma forallb_is_string_VString ss : forallb is_string (VString <$> ss) = true.
Proof. induction ss as [|s ss IH]; csimpl; [reflexivity|exact IH]. Qed.

(** C3. On an open client and a key whose value is there but is not of
    the type the accessor asks for, each of the four scalar accessors
    returns the default it was given and a type-mismatch error; the zero
    value the failed type assertion leaves behind is not what is
    returned. *)
Theorem type_mismatch_returns_default w c b name v :
  reads_from w c b → source.GetData b name = (v, true) →
  (is_string v = false →
     fst (assert_string v) = "" ∧
     ∀ d, Client_GetConfigString w c name d = Ret (d, Some "config is not a string")) ∧
  (is_int v = false →
     fst (assert_int v) = 0 ∧
     ∀ d, Client_GetConfigInt w c name d = Ret (d, Some "config is not an int64")) ∧
  (is_float64 v = false →
     fst (assert_float64 v) = 0%float ∧
     ∀ d, Client_GetConfigFloat w c name d = Ret (d, Some "config is not an int64")) ∧
  (is_string_slice v = false →
     ∀ d, Client_GetConfigArrayOfStrings w c name d =
            Ret (d, Some "config is not an array of strings")) ∧
  type_mismatch_error (Some "config is not a string") ∧
  type_mismatch_error (Some "config is not an int64") ∧
  type_mismatch_error (Some "config is not an array of strings").
Proof.
  intros Ho Hg.
  split; [|split; [|split; [|split; [|split; [|split]]]]].
  - intros Hv. split; [destruct v; try reflexivity; discriminate|].
    intros d. rewrite (found_GetConfigString _ _ _ _ _ _ Ho Hg), Hv. reflexivity.
  - intros Hv. split; [destruct v; try reflexivity; discriminate|].
    intros d. rewrite (found_GetConfigInt _ _ _ _ _ _ Ho Hg), Hv. reflexivity.
  - intros Hv. split; [destruct v; try reflexivity; discriminate|].
    intros d. rewrite (found_GetConfigFloat _ _ _ _ _ _ Ho Hg), Hv. reflexivity.
  - intros Hv d. rewrite (found_GetConfigArrayOfStrings _ _ _ _ _ _ Ho Hg), Hv.
    reflexivity.
  - left. reflexivity.
  - right. left. reflexivity.
  - right. right. reflexivity.
Qed.

(** C5. On an open client and a key whose value is a sequence,
    [GetConfigArrayOfStrings] returns all the strings and no error when
    every element is a string, and the default with an error as soon as
    one element is not: the strings converted before that element are
    dropped. *)
Theorem GetConfigArrayOfStrings_all_or_nothing w c b name l d :
  reads_from w c b → source.GetData b name = (VSlice l, true) →
  (∀ ss, l = VString <$> ss →
     Client_GetConfigArrayOfStrings w c name d = Ret (ss, None)) ∧
  (∀ x, x ∈ l → is_string x = false →
     Client_GetConfigArrayOfStrings w c name d =
       Ret (d, Some "config is not an array of strings")).
Proof.
  intros Ho Hg.
  pose proof (found_GetConfigArrayOfStrings _ _ _ _ _ d Ho Hg) as Hr.
  unfold is_string_slice in Hr. simpl in Hr. split.
  - intros ss ->. rewrite Hr, forallb_is_string_VString, strings_of_VString.
    reflexivity.
  - intros x Hx Hno. rewrite Hr.
    destruct (forallb is_string l) eqn:Hall; [|reflexivity].
    rewrite forallb_forall in Hall. apply list_elem_of_In in Hx.
    rewrite (Hall x Hx) in Hno. discriminate.
Qed.

(** C6. [GetConfigInt] returns a value and no error only on an open
    client and a key whose value has dynamic type [int], and then it
    returns that value; on a value of type [float64], whatever the
    number, it returns the default and the type-mismatch error, and so it
    does on an [int64]. *)
Theorem GetConfigInt_only_native_int w c name d :
  (∀ n, Client_GetConfigInt w c name d = Ret (n, None) ↔
        ∃ b, reads_from w c b ∧ source.GetData b name = (VInt n, true)) ∧
  (∀ b f, reads_from w c b → source.GetData b name = (VFloat f, true) →
        Client_GetConfigInt w c name d = Ret (d, Some "config is not an int64")) ∧
  (∀ b n, reads_from w c b → source.GetData b name = (VInt64 n, true) →
        Client_GetConfigInt w c name d = Ret (d, Some "config is not an int64")).
Proof.
  split; [|split].
  - intros n. split.
    + unfold Client_GetConfigInt.
      destruct (deref w c) as [cl|] eqn:Hc; simpl; [|discriminate].
      destruct (isClosed cl) eqn:Hcl; [discriminate|].
      destruct (backend w cl) as [b|] eqn:Hb; simpl; [|discriminate].
      destruct (source.GetData b name) as [v [|]] eqn:Hg; simpl; [|discriminate].
      destruct v; simpl; try discriminate.
      intros [= ->]. exists b. split; [exists cl|]; auto.
    + intros (b & Ho & Hg). rewrite (found_GetConfigInt _ _ _ _ _ _ Ho Hg).
      reflexivity.
  - intros b f Ho Hg. rewrite (found_GetConfigInt _ _ _ _ _ _ Ho Hg). reflexivity.
  - intros b n Ho Hg. rewrite (found_GetConfigInt _ _ _ _ _ _ Ho Hg). reflexivity.
Qed.

(** *** The structured accessor and the caller's destination *)

(** C7, as the code has it. When [GetConfig] returns an error, the
    default it was given ends up in the parameter [data] only, and what
    the caller gets does not depend on that default. On a closed client,
    on a key that is not there and on an error of [yaml.Marshal] the
    caller's variables are the ones before the call; on an error of
    [yaml.Unmarshal] they are the ones [yaml.Unmarshal] left. *)
Theorem GetConfig_failure_rebinds_parameter_only
    w c name data dv st data' st' e :
  GetConfig_body w c name data dv st = Ret (data', st', Some e) →
  data' = dv ∧
  (∀ dv', Client_GetConfig w c name data dv' st = Ret (st', Some e)) ∧
  ((closed w c ∧ st' = st) ∨
   (∃ b x, reads_from w c b ∧ source.GetData b name = (x, false) ∧ st' = st) ∨
   (∃ b config, reads_from w c b ∧ source.GetData b name = (config, true) ∧
      snd (yaml.Marshal config) = Some e ∧ st' = st) ∨
   (∃ b config, reads_from w c b ∧ source.GetData b name = (config, true) ∧
      snd (yaml.Marshal config) = None ∧
      yaml.Unmarshal (fst (yaml.Marshal config)) data st = (st', Some e))).
Proof.
  unfold Client_GetConfig, GetConfig_body.
  destruct (deref w c) as [cl|] eqn:Hc; simpl; [|discriminate].
  destruct (isClosed cl) eqn:Hcl.
  { intros [= <- <- <-]. repeat split. left. split; [exists cl|]; auto. }
  destruct (backend w cl) as [b|] eqn:Hb; simpl; [|discriminate].
  assert (reads_from w c b) as Ho by (exists cl; auto).
  destruct (source.GetData b name) as [config [|]] eqn:Hg; simpl.
  2:{ intros [= <- <- <-]. repeat split. right. left. eauto. }
  destruct (yaml.Marshal config) as [marshal [e1|]] eqn:Hm; simpl.
  { intros [= <- <- <-]. repeat split. right. right. left.
    exists b, config. rewrite Hm. auto. }
  destruct (yaml.Unmarshal marshal data st) as [st1 [e2|]] eqn:Hu; simpl.
  2:{ discriminate. }
  intros [= <- <- <-]. repeat split. right. right. right.
  exists b, config. rewrite Hm. auto.
Qed.

End Accessors.

(** ** The structured accessor on the test doubles *)

Section StructuredAccessor.

Import scenario.

(** The client of [w_open] is open and reads from the second backend,
    once refreshed. *)
Lemma w_open_reads_from :
  reads_from w_open (Some 0%nat) (fst (source.Refresh stub.fails_later)).
Proof. eexists. repeat split. Qed.

Lemma w_closed_closed : closed w_closed (Some 0%nat).
Proof. eexists. split; reflexivity. Qed.

(** C7, as the claim has it, does not hold: with a decoder that keeps
    the fields it could decode, [GetConfig] on a document whose [port]
    does not fit returns the decoder's error and has filled in the
    [host] of the caller's variable. *)
Lemma GetConfig_unmarshal_error_changes_destination :
  Client_GetConfig (Y := stub.partial_codec) w_open (Some 0%nat) "server"
      (yaml.IPtr 0) (yaml.IVal (VString "dflt")) [server_var]
    = Ret ([VMap [("port", VInt 0); ("host", VString "example.org")]],
           Some "yaml: unmarshal errors") ∧
  [VMap [("port", VInt 0); ("host", VString "example.org")]] ≠ [server_var].
Proof. split; [reflexivity|discriminate]. Qed.

(** C2 at a closed client. The backend still has a value for the key;
    each scalar accessor returns its default with the closed-client
    error, and so does the parameter of [GetConfig], but the caller of
    [GetConfig] gets the error alone: its variable holds what it held,
    not the default. *)
Theorem closed_GetConfig_does_not_deliver_default (Y : yaml.Codec) :
  Close w_open (Some 0%nat) = Ret w_closed ∧
  source.GetData (fst (source.Refresh stub.fails_later)) "name"
    = (VString "remote", true) ∧
  Client_GetConfigString w_closed (Some 0%nat) "name" "dflt"
    = Ret ("dflt", Some "client is closed") ∧
  GetConfig_body w_closed (Some 0%nat) "name" (yaml.IPtr 0)
      (yaml.IVal (VString "dflt")) [name_var]
    = Ret (yaml.IVal (VString "dflt"), [name_var], Some "client is closed") ∧
  Client_GetConfig w_closed (Some 0%nat) "name" (yaml.IPtr 0)
      (yaml.IVal (VString "dflt")) [name_var]
    = Ret ([name_var], Some "client is closed") ∧
  [name_var] ≠ [VString "dflt"].
Proof. repeat split; discriminate. Qed.

(** C4 at an open client and a key that is not in the snapshot. Each
    scalar accessor returns its default with the not-found error, and so
    does the parameter of [GetConfig], but the caller of [GetConfig] gets
    the error alone: its variable holds what it held, not the default. *)
Theorem not_found_GetConfig_does_not_deliver_default (Y : yaml.Codec) :
  source.GetData (fst (source.Refresh stub.fails_later)) "missing" = (VNil, false) ∧
  Client_GetConfigString w_open (Some 0%nat) "missing" "dflt"
    = Ret ("dflt", Some "config not found") ∧
  GetConfig_body w_open (Some 0%nat) "missing" (yaml.IPtr 0)
      (yaml.IVal (VString "dflt")) [name_var]
    = Ret (yaml.IVal (VString "dflt"), [name_var], Some "config not found") ∧
  Client_GetConfig w_open (Some 0%nat) "missing" (yaml.IPtr 0)
      (yaml.IVal (VString "dflt")) [name_var]
    = Ret ([name_var], Some "config not found") ∧
  [name_var] ≠ [VString "dflt"].
Proof. repeat split; discriminate. Qed.

End StructuredAccessor.

(** ** Contexts *)

Section Contexts.

Implicit Types (cs : list context.Node) (c : context.Context).

Lemma done_upto_more fuel fuel' cs c :
  (fuel ≤ fuel')%nat →
  context.done_upto fuel cs c = true → context.done_upto fuel' cs c = true.
Proof.
  revert fuel' c. induction fuel as [|fuel IH]; intros fuel' c Hle; [discriminate|].
  destruct fuel' as [|fuel']; [lia|]. simpl.
  destruct c as [i|]; [|discriminate].
  destruct (cs !! i) as [n|]; [|discriminate].
  destruct (context.cancelled n); [reflexivity|]. simpl.
  apply IH. lia.
Qed.

Lemma done_upto_app fuel cs l c :
  context.done_upto fuel cs c = true → context.done_upto fuel (cs ++ l) c = true.
Proof.
  revert c. induction fuel as [|fuel IH]; intros c; [discriminate|]. simpl.
  destruct c as [i|]; [|discriminate].
  destruct (cs !! i) as [n|] eqn:Hi; [|discriminate].
  rewrite (lookup_app_l_Some _ _ _ _ Hi).
  destruct (context.cancelled n); [reflexivity|]. simpl. apply IH.
Qed.

Lemma done_upto_cancel fuel cs k c :
  context.done_upto fuel cs c = true →
  context.done_upto fuel (context.cancel cs k) c = true.
Proof.
  unfold context.cancel. destruct (cs !! k) as [nk|] eqn:Hk; [|auto].
  revert c. induction fuel as [|fuel IH]; intros c; [discriminate|]. simpl.
  destruct c as [i|]; [|discriminate].
  destruct (decide (k = i)) as [->|Hne].
  - rewrite Hk, list_lookup_insert_eq by (eapply lookup_lt_Some; eauto).
    reflexivity.
  - rewrite list_lookup_insert_ne by exact Hne.
    destruct (cs !! i) as [n|]; [|discriminate].
    destruct (context.cancelled n); [reflexivity|]. simpl. apply IH.
Qed.

(** A context that is done stays done when a context is derived and when
    a context is cancelled. *)
Lemma Done_WithCancel cs p c :
  context.Done cs c = true → context.Done (fst (context.WithCancel cs p)) c = true.
Proof.
  unfold context.Done, context.WithCancel. simpl. intros Hd.
  apply done_upto_app. eapply done_upto_more; [|exact Hd].
  rewrite length_app. lia.
Qed.

Lemma Done_cancel cs k c :
  context.Done cs c = true → context.Done (context.cancel cs k) c = true.
Proof.
  unfold context.Done. intros Hd.
  replace (length (context.cancel cs k)) with (length cs).
  - apply done_upto_cancel, Hd.
  - unfold context.cancel. destruct (cs !! k); [rewrite length_insert|]; reflexivity.
Qed.

(** Calling the cancel function of a context closes its [Done]
    channel. *)
Lemma cancel_Done cs k n :
  cs !! k = Some n → context.Done (context.cancel cs k) (Some k) = true.
Proof.
  intros Hk. pose proof (lookup_lt_Some _ _ _ Hk) as Hlt.
  unfold context.Done, context.cancel. rewrite Hk, length_insert.
  destruct (length cs) as [|m] eqn:Hlen; [lia|]. simpl.
  rewrite list_lookup_insert_eq by lia. reflexivity.
Qed.

(** Cancelling the context another one was derived from closes the
    [Done] channel of the derived one too. *)
Lemma cancel_parent_Done cs p n :
  cs !! p = Some n →
  context.Done (context.cancel (fst (context.WithCancel cs (Some p))) p)
    (Some (snd (context.WithCancel cs (Some p)))) = true.
Proof.
  intros Hp. pose proof (lookup_lt_Some _ _ _ Hp) as Hlt.
  unfold context.Done, context.WithCancel, context.cancel. simpl.
  rewrite (lookup_app_l_Some _ _ _ _ Hp), length_insert, length_app. simpl.
  destruct (length cs) as [|m] eqn:Hlen; [lia|]. simpl.
  rewrite list_lookup_insert_ne by lia.
  rewrite lookup_app_r by lia. rewrite Hlen, Nat.sub_diag. simpl.
  replace (m + 1)%nat with (S m) by lia. simpl.
  rewrite list_lookup_insert_eq by (rewrite length_app; simpl; lia).
  reflexivity.
Qed.

End Contexts.

(** ** The refresh goroutine *)

Section RefreshLoop.

Context {B : Type} {R : source.Repository B}.

Implicit Types (w : World B) (g k : nat) (a : Action) (gr : Goroutine).

Lemma set_status_lookup w g0 gr0 s g gr :
  goroutines w !! g0 = Some gr0 →
  goroutines w !! g = Some gr →
  ∃ gr', goroutines (set_status w g0 gr0 s) !! g = Some gr' ∧
         g_ctx gr' = g_ctx gr ∧ g_client gr' = g_client gr ∧
         g_status gr' = if decide (g0 = g) then s else g_status gr.
Proof.
  intros H0 Hg. unfold set_status. simpl. destruct (decide (g0 = g)) as [->|Hne].
  - rewrite list_lookup_insert_eq by (eapply lookup_lt_Some; eauto).
    assert (gr0 = gr) as -> by congruence. eexists. repeat split.
  - rewrite list_lookup_insert_ne by exact Hne. eauto.
Qed.

(** What one action does to a goroutine: nothing, unless it is that
    goroutine starting and making its ticker, panicking on a pointer that
    leads nowhere, or taking the [Done] case of its [select] on a context
    that is done. *)
Lemma step_goroutine w a w' g gr :
  step w a = Some w' → goroutines w !! g = Some gr →
  ∃ gr', goroutines w' !! g = Some gr' ∧
    g_ctx gr' = g_ctx gr ∧ g_client gr' = g_client gr ∧
    ((g_status gr' = g_status gr ∧ a ≠ select_done g)
     ∨ (a = go_start g ∧ g_status gr = Spawned ∧
        ((∃ msg, g_status gr' = Panicked msg) ∨
         (∃ d, g_status gr' = Looping (time.mkTicker d false))))
     ∨ (a = select_tick g ∧ (∃ t, g_status gr = Looping t) ∧
        ∀ cl, clients w !! g_client gr = Some cl → repos w !! Repository cl = None)
     ∨ (a = select_done g ∧ ∃ t, g_status gr = Looping t ∧
        g_status gr' = Returned t ∧
        context.Done (contexts w) (Some (g_ctx gr)) = true)).
Proof.
  intros Hstep Hg.
  destruct a as [g0|g0|g0|ctx repository refreshInterval|c|k0]; simpl in Hstep.
  - (* go_start *)
    unfold refresh_start in Hstep.
    destruct (goroutines w !! g0) as [gr0|] eqn:H0; simpl in Hstep; [|discriminate].
    destruct (g_status gr0) eqn:Hs0; try discriminate.
    assert (∃ s, w' = set_status w g0 gr0 s ∧
              ((∃ msg, s = Panicked msg) ∨ (∃ d, s = Looping (time.mkTicker d false))))
      as (s & -> & Hs).
    { unfold deref in Hstep.
      destruct (clients w !! g_client gr0) as [cl|]; simpl in Hstep.
      - unfold time.NewTicker in Hstep.
        destruct (RefreshInterval cl <=? 0); injection Hstep as <-; eauto.
      - injection Hstep as <-. eauto. }
    destruct (set_status_lookup w g0 gr0 s g gr H0 Hg) as (gr' & Hl & Hk & Hc & Hs').
    exists gr'. repeat split; auto.
    destruct (decide (g0 = g)) as [->|].
    + right; left. assert (gr0 = gr) as -> by congruence.
      rewrite Hs'. auto.
    + left. split; [assumption|discriminate].
  - (* select_tick *)
    unfold refresh_tick in Hstep.
    destruct (goroutines w !! g0) as [gr0|] eqn:H0; simpl in Hstep; [|discriminate].
    destruct (g_status gr0) as [|t0| |] eqn:Hs0; try discriminate.
    unfold deref, backend in Hstep.
    assert (goroutines w' = goroutines w ∨
            (w' = set_status w g0 gr0 (Panicked nil_dereference) ∧
             ∀ cl, clients w !! g_client gr0 = Some cl →
                   repos w !! Repository cl = None)) as [Hsame|[-> Hnil]].
    { destruct (clients w !! g_client gr0) as [cl|] eqn:Hcl.
      - destruct (repos w !! Repository cl) as [b|] eqn:Hb.
        + destruct (source.Refresh b) as [b' [e|]]; injection Hstep as <-; auto.
        + injection Hstep as <-. right. split; [reflexivity|]. congruence.
      - injection Hstep as <-. right. split; [reflexivity|]. congruence. }
    + exists gr. rewrite Hsame. repeat split; auto; (left; split; [reflexivity|discriminate]).
    + destruct (set_status_lookup w g0 gr0 (Panicked nil_dereference) g gr H0 Hg)
        as (gr' & Hl & Hk & Hc & Hs').
      exists gr'. repeat split; auto.
      destruct (decide (g0 = g)) as [->|].
      * right; right; left. assert (gr0 = gr) as -> by congruence. eauto.
      * left. split; [assumption|discriminate].
  - (* select_done *)
    unfold refresh_done in Hstep.
    destruct (goroutines w !! g0) as [gr0|] eqn:H0; simpl in Hstep; [|discriminate].
    destruct (g_status gr0) as [|t0| |] eqn:Hs0; try discriminate.
    destruct (context.Done (contexts w) (Some (g_ctx gr0))) eqn:Hd; [|discriminate].
    injection Hstep as <-.
    destruct (set_status_lookup w g0 gr0 (Returned t0) g gr H0 Hg)
      as (gr' & Hl & Hk & Hc & Hs').
    exists gr'. repeat split; auto.
    destruct (decide (g0 = g)) as [->|].
    + right; right; right. assert (gr0 = gr) as -> by congruence. eauto.
    + left. split; [assumption|congruence].
  - (* call_NewClient *)
    destruct (repos w !! repository) as [b|] eqn:Hb.
    + rewrite (NewClient_eq _ _ _ _ _ Hb) in Hstep. cbv zeta in Hstep.
      exists gr.
      destruct (snd (source.Refresh b)); injection Hstep as <-; simpl;
        try rewrite (lookup_app_l_Some _ _ _ _ Hg);
        repeat split; auto; (left; split; [reflexivity|discriminate]).
    + rewrite (NewClient_nil_repository _ _ _ _ Hb) in Hstep. discriminate.
  - (* call_Close *)
    unfold Close, deref in Hstep.
    destruct (clients w !! c) as [cl|]; simpl in Hstep; [|discriminate].
    destruct (cancel cl); [|discriminate].
    injection Hstep as <-. exists gr. simpl.
    repeat split; auto; (left; split; [reflexivity|discriminate]).
  - (* call_cancel *)
    injection Hstep as <-. exists gr. simpl.
    repeat split; auto; (left; split; [reflexivity|discriminate]).
Qed.

Lemma linked_set_status w g0 gr0 s :
  goroutines w !! g0 = Some gr0 → linked w → linked (set_status w g0 gr0 s).
Proof.
  intros H0 [Hgs Hcs]. split; simpl; [|exact Hcs].
  intros g gr [(-> & <- & _)|(_ & Hg)]%list_lookup_insert_Some; simpl; eauto.
Qed.

Lemma linked_set_repos w i b :
  linked w → linked (set_repos w (<[i := b]> (repos w))).
Proof.
  intros [Hgs Hcs]. split; simpl; [exact Hgs|].
  intros p cl Hp. rewrite length_insert. eauto.
Qed.

Lemma linked_log_error w e : linked w → linked (log_error w e).
Proof. intros [Hgs Hcs]. split; simpl; assumption. Qed.

(** Every action keeps the pointers of the world linked. *)
Lemma step_linked w a w' : linked w → step w a = Some w' → linked w'.
Proof.
  intros Hl Hstep.
  destruct a as [g0|g0|g0|ctx repository refreshInterval|c|k0]; simpl in Hstep.
  - unfold refresh_start in Hstep.
    destruct (goroutines w !! g0) as [gr0|] eqn:H0; simpl in Hstep; [|discriminate].
    destruct (g_status gr0); try discriminate.
    match type of Hstep with match ?r with _ => _ end = _ =>
      destruct r as [t|msg] end;
      injection Hstep as <-; apply linked_set_status; assumption.
  - unfold refresh_tick in Hstep.
    destruct (goroutines w !! g0) as [gr0|] eqn:H0; simpl in Hstep; [|discriminate].
    destruct (g_status gr0); try discriminate.
    unfold deref, backend in Hstep.
    destruct (clients w !! g_client gr0) as [cl|].
    + destruct (repos w !! Repository cl) as [b|].
      * destruct (source.Refresh b) as [b' [e|]]; injection Hstep as <-.
        -- apply linked_log_error, linked_set_repos, Hl.
        -- apply linked_set_repos, Hl.
      * injection Hstep as <-. apply linked_set_status; assumption.
    + injection Hstep as <-. apply linked_set_status; assumption.
  - unfold refresh_done in Hstep.
    destruct (goroutines w !! g0) as [gr0|] eqn:H0; simpl in Hstep; [|discriminate].
    destruct (g_status gr0); try discriminate.
    destruct (context.Done _ _); [|discriminate].
    injection Hstep as <-. apply linked_set_status; assumption.
  - destruct (repos w !! repository) as [b|] eqn:Hb.
    2:{ rewrite (NewClient_nil_repository _ _ _ _ Hb) in Hstep. discriminate. }
    rewrite (NewClient_eq _ _ _ _ _ Hb) in Hstep. cbv zeta in Hstep.
    pose proof (lookup_lt_Some _ _ _ Hb) as Hlt.
    destruct Hl as [Hgs Hcs].
    assert (∀ p cl,
      (clients w ++ [mkClient repository refreshInterval false
                       (Some (length (contexts w)))]) !! p = Some cl →
      (Repository cl < length (<[repository := fst (source.Refresh b)]> (repos w)))%nat)
      as Hcs'.
    { intros p cl [Hp|[_ Hp]]%lookup_app_Some; rewrite length_insert; [eauto|].
      destruct (p - length (clients w))%nat; simpl in Hp; [|discriminate].
      injection Hp as <-. exact Hlt. }
    destruct (snd (source.Refresh b)); injection Hstep as <-; split; simpl;
      try exact Hcs'.
    + intros g gr Hg. rewrite length_app. simpl. apply Hgs in Hg. lia.
    + intros g gr [Hg|[_ Hg]]%lookup_app_Some; rewrite length_app; simpl.
      * apply Hgs in Hg. lia.
      * destruct (g - length (goroutines w))%nat; simpl in Hg; [|discriminate].
        injection Hg as <-. simpl. lia.
  - unfold Close, deref in Hstep.
    destruct (clients w !! c) as [cl|] eqn:Hc; simpl in Hstep; [|discriminate].
    destruct (cancel cl); [|discriminate].
    injection Hstep as <-. destruct Hl as [Hgs Hcs]. split; simpl.
    + intros g gr Hg. rewrite length_insert. eauto.
    + intros p cl' [(-> & <- & _)|(_ & Hp)]%list_lookup_insert_Some; simpl; eauto.
  - injection Hstep as <-. exact Hl.
Qed.

(** A context that is done stays done, whatever happens next. *)
Lemma step_Done w a w' c :
  step w a = Some w' →
  context.Done (contexts w) c = true → context.Done (contexts w') c = true.
Proof.
  intros Hstep Hd.
  destruct a as [g0|g0|g0|ctx repository refreshInterval|c0|k0]; simpl in Hstep.
  - unfold refresh_start in Hstep.
    destruct (goroutines w !! g0) as [gr0|]; simpl in Hstep; [|discriminate].
    destruct (g_status gr0); try discriminate.
    match type of Hstep with match ?r with _ => _ end = _ =>
      destruct r as [t|msg] end; injection Hstep as <-; exact Hd.
  - unfold refresh_tick in Hstep.
    destruct (goroutines w !! g0) as [gr0|]; simpl in Hstep; [|discriminate].
    destruct (g_status gr0); try discriminate.
    unfold deref, backend in Hstep.
    destruct (clients w !! g_client gr0) as [cl|].
    + destruct (repos w !! Repository cl) as [b|].
      * destruct (source.Refresh b) as [b' [e|]]; injection Hstep as <-; exact Hd.
      * injection Hstep as <-. exact Hd.
    + injection Hstep as <-. exact Hd.
  - unfold refresh_done in Hstep.
    destruct (goroutines w !! g0) as [gr0|]; simpl in Hstep; [|discriminate].
    destruct (g_status gr0); try discriminate.
    destruct (context.Done _ _); [|discriminate].
    injection Hstep as <-. exact Hd.
  - destruct (repos w !! repository) as [b|] eqn:Hb.
    2:{ rewrite (NewClient_nil_repository _ _ _ _ Hb) in Hstep. discriminate. }
    rewrite (NewClient_eq _ _ _ _ _ Hb) in Hstep. cbv zeta in Hstep.
    destruct (snd (source.Refresh b)); injection Hstep as <-; simpl;
      apply (Done_WithCancel _ ctx), Hd.
  - unfold Close, deref in Hstep.
    destruct (clients w !! c0) as [cl|]; simpl in Hstep; [|discriminate].
    destruct (cancel cl); [|discriminate].
    injection Hstep as <-. simpl. apply Done_cancel, Hd.
  - injection Hstep as <-. simpl. apply Done_cancel, Hd.
Qed.

Lemma goroutine_at_status w g k s k' s' :
  goroutine_at w g k s → goroutine_at w g k' s' → k = k' ∧ s = s'.
Proof. intros (gr & Hg & <- & <-) (gr' & Hg' & <- & <-). split; congruence. Qed.

(** The [Done] case of the [select]: it can be taken exactly when the
    context is done, and the goroutine then returns, its ticker as it
    was. *)
Lemma refresh_done_eq w g gr t :
  goroutines w !! g = Some gr → g_status gr = Looping t →
  refresh_done w g =
    if context.Done (contexts w) (Some (g_ctx gr))
    then Some (set_status w g gr (Returned t))
    else None.
Proof. intros Hg Hs. unfold refresh_done. rewrite Hg. simpl. rewrite Hs. reflexivity. Qed.

(** The ticker case of the [select]: one call of [Refresh] on the
    client's backend; an error is logged; in both cases the goroutines
    are what they were, so the loop goes on. *)
Lemma refresh_tick_eq w g gr t :
  linked w → goroutines w !! g = Some gr → g_status gr = Looping t →
  ∃ cl b, clients w !! g_client gr = Some cl ∧ repos w !! Repository cl = Some b ∧
    refresh_tick w g =
      Some (let w1 := set_repos w (<[Repository cl := fst (source.Refresh b)]> (repos w)) in
            match snd (source.Refresh b) with
            | Some e => log_error w1 e
            | None => w1
            end).
Proof.
  intros [Hgs Hcs] Hg Hs.
  destruct (lookup_lt_is_Some_2 (clients w) (g_client gr) (Hgs _ _ Hg)) as [cl Hcl].
  destruct (lookup_lt_is_Some_2 (repos w) (Repository cl) (Hcs _ _ Hcl)) as [b Hb].
  exists cl, b. repeat split; auto.
  unfold refresh_tick, deref, backend. rewrite Hg. simpl. rewrite Hs, Hcl, Hb.
  destruct (source.Refresh b) as [b' [e|]]; reflexivity.
Qed.

Lemma step_returned w a w' g k t :
  goroutine_at w g k (Returned t) → step w a = Some w' →
  goroutine_at w' g k (Returned t).
Proof.
  intros (gr & Hg & Hk & Hs) Hstep.
  destruct (step_goroutine _ _ _ _ _ Hstep Hg) as (gr' & Hg' & Hk' & _ & Hcase).
  exists gr'. repeat split; [assumption|congruence|].
  destruct Hcase as [[? _]|[(_ & ? & _)|[(_ & [t' ?] & _)|(_ & t' & ? & _)]]];
    congruence.
Qed.

Lemma step_looping w a w' g k t :
  linked w → goroutine_at w g k (Looping t) → step w a = Some w' →
  (a ≠ select_done g ∧ goroutine_at w' g k (Looping t)) ∨
  (a = select_done g ∧ goroutine_at w' g k (Returned t) ∧
   context.Done (contexts w) (Some k) = true).
Proof.
  intros Hl (gr & Hg & Hk & Hs) Hstep.
  destruct (step_goroutine _ _ _ _ _ Hstep Hg) as (gr' & Hg' & Hk' & _ & Hcase).
  destruct Hcase as [[? ?]|[(_ & ? & _)|[(_ & _ & Hnil)|(-> & t' & ? & ? & Hd)]]].
  - left. split; [assumption|]. exists gr'. repeat split; congruence.
  - congruence.
  - destruct (refresh_tick_eq _ _ _ _ Hl Hg Hs) as (cl & b & Hcl & Hb & _).
    rewrite (Hnil _ Hcl) in Hb. discriminate.
  - right. split; [reflexivity|]. split; [|congruence].
    exists gr'. repeat split; congruence.
Qed.

Lemma run_linked acts w w' : linked w → run w acts = Some w' → linked w'.
Proof.
  revert w. induction acts as [|a acts IH]; intros w Hl; simpl.
  - intros [= <-]. exact Hl.
  - destruct (step w a) as [w1|] eqn:Hstep; simpl; [|discriminate].
    apply IH. eapply step_linked; eauto.
Qed.

Lemma run_Done acts w w' c :
  run w acts = Some w' →
  context.Done (contexts w) c = true → context.Done (contexts w') c = true.
Proof.
  revert w. induction acts as [|a acts IH]; intros w; simpl.
  - intros [= <-]. auto.
  - destruct (step w a) as [w1|] eqn:Hstep; simpl; [|discriminate].
    intros Hrun Hd. apply (IH _ Hrun). eapply step_Done; eauto.
Qed.

(** Once returned, a goroutine does nothing more: none of its actions can
    happen. *)
Lemma run_returned acts w w' g k t :
  goroutine_at w g k (Returned t) → run w acts = Some w' →
  goroutine_at w' g k (Returned t) ∧ select_done g ∉ acts.
Proof.
  revert w. induction acts as [|a acts IH]; intros w Hret; simpl.
  - intros [= <-]. split; [assumption|]. apply not_elem_of_nil.
  - destruct (step w a) as [w1|] eqn:Hstep; simpl; [|discriminate].
    intros Hrun.
    destruct (IH _ (step_returned _ _ _ _ _ _ Hret Hstep) Hrun) as [Hret' Hnot].
    split; [assumption|]. apply not_elem_of_cons. split; [|assumption].
    intros <-. simpl in Hstep. destruct Hret as (gr & Hg & _ & Hs).
    unfold refresh_done in Hstep. rewrite Hg in Hstep. simpl in Hstep.
    rewrite Hs in Hstep. discriminate.
Qed.

(** A goroutine in its loop, after any actions: still in its loop if it
    did not take the [Done] case, returned if it did. *)
Lemma run_looping acts w w' g k t :
  linked w → goroutine_at w g k (Looping t) → run w acts = Some w' →
  ((select_done g ∉ acts) ∧ goroutine_at w' g k (Looping t)) ∨
  (select_done g ∈ acts ∧ goroutine_at w' g k (Returned t) ∧
   context.Done (contexts w') (Some k) = true).
Proof.
  revert w. induction acts as [|a acts IH]; intros w Hl Hloop; simpl.
  - intros [= <-]. left. split; [apply not_elem_of_nil|assumption].
  - destruct (step w a) as [w1|] eqn:Hstep; simpl; [|discriminate].
    intros Hrun.
    destruct (step_looping _ _ _ _ _ _ Hl Hloop Hstep)
      as [[Hne Hloop1]|(-> & Hret1 & Hd)].
    + destruct (IH _ (step_linked _ _ _ Hl Hstep) Hloop1 Hrun)
        as [[Hnot Hloop']|(Hin & Hret' & Hd')].
      * left. split; [|assumption]. apply not_elem_of_cons. split; congruence.
      * right. split; [apply list_elem_of_further, Hin|]. auto.
    + right. split; [apply list_elem_of_here|].
      destruct (run_returned _ _ _ _ _ _ Hret1 Hrun) as [Hret' _].
      split; [assumption|].
      apply (run_Done _ _ _ _ Hrun). eapply step_Done; eauto.
Qed.

(** A goroutine in the loop of [refresh], along any actions of the
    process: each turn of the loop on the ticker calls [Refresh], logs its
    error if there is one and leaves the goroutine in its loop, so without
    the [Done] case the goroutine is still looping (a); it has returned
    exactly when its [select] took the [Done] case, which it can exactly
    when the context it was given is done, and that context is then done
    for good (b, c, d); and the ticker it returns with is the one it
    entered the loop with: the function calls [Stop] on it nowhere (e). *)
Theorem refresh_loop_ends_only_on_Done w g k t acts w' :
  linked w → goroutine_at w g k (Looping t) → run w acts = Some w' →
  (∃ b w1, refreshes w g b ∧ refresh_tick w g = Some w1 ∧
           logs w1 = logs w ++ option_list (snd (source.Refresh b)) ∧
           goroutine_at w1 g k (Looping t)) ∧
  (select_done g ∉ acts → goroutine_at w' g k (Looping t)) ∧
  (select_done g ∈ acts ↔ goroutine_at w' g k (Returned t)) ∧
  (is_Some (refresh_done w g) ↔ context.Done (contexts w) (Some k) = true) ∧
  (goroutine_at w' g k (Returned t) → context.Done (contexts w') (Some k) = true) ∧
  (∀ t', goroutine_at w' g k (Returned t') →
         t' = t ∧ (time.stopped t = false → t' ≠ time.Stop t)).
Proof.
  intros Hl Hloop Hrun.
  pose proof (run_looping _ _ _ _ _ _ Hl Hloop Hrun) as Hcases.
  assert (goroutine_at w' g k (Looping t) → ∀ t', ¬ goroutine_at w' g k (Returned t'))
    as Hnot_both.
  { intros Hloop' t' Hret.
    destruct (goroutine_at_status _ _ _ _ _ _ Hloop' Hret) as [_ [=]]. }
  split; [|split; [|split; [|split; [|split]]]].
  - destruct Hloop as (gr & Hg & Hk & Hs).
    destruct (refresh_tick_eq _ _ _ _ Hl Hg Hs) as (cl & b & Hcl & Hb & ->).
    exists b. eexists. split; [exists gr, cl; auto|]. split; [reflexivity|].
    destruct (snd (source.Refresh b)); simpl.
    + split; [reflexivity|]. exists gr. auto.
    + split; [rewrite app_nil_r; reflexivity|]. exists gr. auto.
  - intros Hnot. destruct Hcases as [[_ ?]|[Hin _]]; [assumption|contradiction].
  - split.
    + intros Hin. destruct Hcases as [[Hnot _]|(_ & ? & _)]; [contradiction|assumption].
    + intros Hret. destruct Hcases as [[_ Hloop']|[? _]]; [|assumption].
      destruct (Hnot_both Hloop' _ Hret).
  - destruct Hloop as (gr & Hg & <- & Hs). rewrite (refresh_done_eq _ _ _ _ Hg Hs).
    clear Hcases Hnot_both.
    destruct (context.Done (contexts w) (Some (g_ctx gr))); split.
    + reflexivity.
    + eauto.
    + intros [? [=]].
    + intros [=].
  - intros Hret. destruct Hcases as [[_ Hloop']|(_ & _ & ?)]; [|assumption].
    destruct (Hnot_both Hloop' _ Hret).
  - intros t' Hret'. destruct Hcases as [[_ Hloop']|(_ & Hret & _)].
    + destruct (Hnot_both Hloop' _ Hret').
    + destruct (goroutine_at_status _ _ _ _ _ _ Hret Hret') as [_ [= <-]].
      split; [reflexivity|]. intros Hunstopped Ht.
      rewrite Ht in Hunstopped. discriminate.
Qed.

(** [Close] on a client made by [NewClient]: the call returns, the closed
    flag is set, and the [Done] channel of the context its goroutine waits
    on is closed. *)
Theorem Close_sets_flag_and_cancels w p cl k n :
  clients w !! p = Some cl → cancel cl = Some k → contexts w !! k = Some n →
  ∃ w', Close w (Some p) = Ret w' ∧ closed w' (Some p) ∧
        context.Done (contexts w') (Some k) = true.
Proof.
  intros Hp Hk Hn.
  destruct (Close_closed _ _ _ _ Hp Hk) as (w' & Hclose & Hcl & Hctx & _).
  exists w'. split; [exact Hclose|]. split; [exact Hcl|].
  rewrite Hctx. eapply cancel_Done, Hn.
Qed.

End RefreshLoop.

(** ** The package-level accessors *)

Section StaticAccessors.

Context {B : Type} {R : source.Repository B} {Y : yaml.Codec}.

(** C9. As long as no call of [NewClient] has succeeded, [defaultClient]
    is nil, and each of the five package-level accessors panics on the
    nil pointer when it reads the closed flag: none of them returns, with
    an error or without. *)
Theorem static_accessors_panic_before_construction (w : World B) (name : string) :
  never_constructed w →
  defaultClient w = None ∧
  (∀ data dv st, GetConfig w name data dv st = Panic nil_dereference) ∧
  (∀ d, GetConfigArrayOfStrings w name d = Panic nil_dereference) ∧
  (∀ d, GetConfigString w name d = Panic nil_dereference) ∧
  (∀ d, GetConfigInt w name d = Panic nil_dereference) ∧
  (∀ d, GetConfigFloat w name d = Panic nil_dereference).
Proof.
  intros Hnc. pose proof (never_constructed_defaultClient w Hnc) as Hnil.
  unfold GetConfig, GetConfigArrayOfStrings, GetConfigString, GetConfigInt,
    GetConfigFloat. rewrite Hnil.
  repeat split; intros; reflexivity.
Qed.

End StaticAccessors.

(** ** The properties on the test doubles *)

Section OnTestDoubles.

Import scenario.

Lemma linked_start {B : Type} {R : source.Repository B} (backends : list B) :
  linked (start backends).
Proof. split; intros i x Hi; simpl in Hi; rewrite lookup_nil in Hi; discriminate. Qed.

Lemma w_looping_linked : linked w_looping.
Proof.
  apply (run_linked [call_NewClient None 1 10; go_start 0] w0);
    [apply linked_start|reflexivity].
Qed.

Lemma w_looping_goroutine :
  goroutine_at w_looping 0 0 (Looping (time.mkTicker 10 false)).
Proof. eexists. repeat split. Qed.

Lemma w_failed_never_constructed : never_constructed w_failed.
Proof.
  apply (nc_failed w0 None 0%nat 10 w_failed "refresh failed");
    [apply (nc_start [stub.fails_first; stub.fails_later])|reflexivity].
Qed.

(** C1 on the two stubs: the one that fails its first refresh makes
    [NewClient] fail, the one that fails every refresh but the first does
    not. *)
Lemma NewClient_on_stubs :
  construction_failed w0 (NewClient w0 None 0 10) ∧
  construction_succeeded w0 1 (NewClient w0 None 1 10) ∧
  snd (source.Refresh (fst (source.Refresh stub.fails_later))) = Some "refresh failed".
Proof.
  split; [|split].
  - apply (NewClient_fails_iff_initial_Refresh_fails w0 None 0%nat 10 stub.fails_first);
      [reflexivity|discriminate].
  - apply (NewClient_fails_iff_initial_Refresh_fails w0 None 1%nat 10 stub.fails_later);
      reflexivity.
  - reflexivity.
Defined.

(** C10 on the stub that fails: [defaultClient] stays nil; and on a
    world with a client, a failed construction leaves that client in
    place. *)
Lemma failed_NewClient_on_stubs :
  defaultClient w_failed = None ∧
  defaultClient (world_of (NewClient w_open None 0 10)) = Some 0%nat.
Proof.
  assert (NewClient w0 None 0 10 = Ret (w_failed, (None, Some "refresh failed")))
    as Hfirst by reflexivity.
  assert (NewClient w_open None 0 10
          = Ret (world_of (NewClient w_open None 0 10), (None, Some "refresh failed")))
    as Hsecond by reflexivity.
  split.
  - destruct (proj1 (failed_NewClient_keeps_defaultClient _ _ _ _ _ _ _ Hfirst))
      as (_ & Hd & _); [eexists; reflexivity|]. exact Hd.
  - destruct (proj1 (failed_NewClient_keeps_defaultClient _ _ _ _ _ _ _ Hsecond))
      as (_ & Hd & _); [eexists; reflexivity|]. exact Hd.
Defined.

(** C9 after a construction that failed. *)
Lemma static_accessors_after_failed_construction :
  defaultClient w_failed = None ∧
  GetConfig (Y := stub.partial_codec) w_failed "name" (yaml.IPtr 0)
    (yaml.IVal (VString "dflt")) [name_var] = Panic nil_dereference ∧
  GetConfigString w_failed "name" "dflt" = Panic nil_dereference.
Proof.
  destruct (static_accessors_panic_before_construction (Y := stub.partial_codec)
              w_failed "name" w_failed_never_constructed)
    as (Hnil & Hstruct & _ & Hstring & _).
  split; [exact Hnil|]. split; [apply Hstruct|apply Hstring].
Defined.

(** C3 on values of the wrong type. *)
Lemma type_mismatch_on_stub :
  Client_GetConfigInt w_open (Some 0%nat) "name" 7
    = Ret (7, Some "config is not an int64") ∧
  Client_GetConfigString w_open (Some 0%nat) "port" "dflt"
    = Ret ("dflt", Some "config is not a string").
Proof.
  split.
  - assert (source.GetData (fst (source.Refresh stub.fails_later)) "name"
            = (VString "remote", true)) as Hg by reflexivity.
    apply (type_mismatch_returns_default w_open (Some 0%nat) _ "name"
             (VString "remote") w_open_reads_from Hg). reflexivity.
  - assert (source.GetData (fst (source.Refresh stub.fails_later)) "port"
            = (VInt 8080, true)) as Hg by reflexivity.
    apply (type_mismatch_returns_default w_open (Some 0%nat) _ "port"
             (VInt 8080) w_open_reads_from Hg). reflexivity.
Defined.

(** C5 on a sequence of strings and on one that ends with an integer. *)
Lemma GetConfigArrayOfStrings_on_stub :
  Client_GetConfigArrayOfStrings w_open (Some 0%nat) "tags" ["d"]
    = Ret (["a"; "b"], None) ∧
  Client_GetConfigArrayOfStrings w_open (Some 0%nat) "mixed" ["d"]
    = Ret (["d"], Some "config is not an array of strings").
Proof.
  split.
  - assert (source.GetData (fst (source.Refresh stub.fails_later)) "tags"
            = (VSlice [VString "a"; VString "b"], true)) as Hg by reflexivity.
    apply (GetConfigArrayOfStrings_all_or_nothing w_open (Some 0%nat) _ "tags"
             [VString "a"; VString "b"] ["d"] w_open_reads_from Hg).
    reflexivity.
  - assert (source.GetData (fst (source.Refresh stub.fails_later)) "mixed"
            = (VSlice [VString "a"; VString "b"; VInt 3], true)) as Hg by reflexivity.
    apply (proj2 (GetConfigArrayOfStrings_all_or_nothing w_open (Some 0%nat) _ "mixed"
                    [VString "a"; VString "b"; VInt 3] ["d"] w_open_reads_from Hg)
             (VInt 3)); [|reflexivity].
    apply list_elem_of_In. simpl. auto.
Defined.

(** C6 on the float 3. *)
Lemma GetConfigInt_on_float :
  Client_GetConfigInt w_open (Some 0%nat) "ratio" 7
    = Ret (7, Some "config is not an int64").
Proof.
  apply (proj1 (proj2 (GetConfigInt_only_native_int w_open (Some 0%nat) "ratio" 7))
           _ 3%float w_open_reads_from).
  reflexivity.
Defined.

(** [Close] on the client of [w_open]. *)
Lemma Close_on_stub :
  ∃ w', Close w_open (Some 0%nat) = Ret w' ∧ closed w' (Some 0%nat) ∧
        context.Done (contexts w') (Some 0%nat) = true.
Proof.
  assert (clients w_open !! 0%nat = Some (mkClient 1 10 false (Some 0%nat)))
    as Hp by reflexivity.
  assert (contexts w_open !! 0%nat = Some (context.mkNode None false))
    as Hn by reflexivity.
  exact (Close_sets_flag_and_cancels w_open 0 _ 0 _ Hp eq_refl Hn).
Defined.

(** The accessors on the closed client of [w_closed], whose backend still
    has a string for the key. *)
Lemma closed_client_on_stub :
  Client_GetConfigString w_closed (Some 0%nat) "name" "dflt"
    = Ret ("dflt", Some "client is closed") ∧
  Client_GetConfig (Y := stub.partial_codec) w_closed (Some 0%nat) "name"
      (yaml.IPtr 0) (yaml.IVal (VString "dflt")) [name_var]
    = Ret ([name_var], Some "client is closed").
Proof.
  destruct (closed_client_accessors (Y := stub.partial_codec) w_closed (Some 0%nat)
              "name" w_closed_closed) as (Hs & _ & _ & _ & Hg).
  split; [apply Hs|apply Hg].
Defined.

(** The accessors on the open client of [w_open] and a key its backend
    does not have. *)
Lemma not_found_on_stub :
  Client_GetConfigInt w_open (Some 0%nat) "missing" 7
    = Ret (7, Some "config not found") ∧
  Client_GetConfig (Y := stub.partial_codec) w_open (Some 0%nat) "missing"
      (yaml.IPtr 0) (yaml.IVal (VString "dflt")) [name_var]
    = Ret ([name_var], Some "config not found").
Proof.
  assert (source.GetData (fst (source.Refresh stub.fails_later)) "missing"
          = (VNil, false)) as Hmiss by reflexivity.
  destruct (not_found_accessors (Y := stub.partial_codec) w_open (Some 0%nat) _
              "missing" VNil w_open_reads_from Hmiss) as (_ & Hi & _ & _ & Hg).
  split; [apply Hi|apply Hg].
Defined.

(** C7 on the decoder that keeps what it decoded. *)
Lemma GetConfig_failure_on_stub :
  Client_GetConfig (Y := stub.partial_codec) w_open (Some 0%nat) "server"
      (yaml.IPtr 0) (yaml.IVal (VString "other")) [server_var]
    = Ret ([VMap [("port", VInt 0); ("host", VString "example.org")]],
           Some "yaml: unmarshal errors").
Proof.
  apply (GetConfig_failure_rebinds_parameter_only (Y := stub.partial_codec)
           w_open (Some 0%nat) "server" (yaml.IPtr 0) (yaml.IVal (VString "dflt"))
           [server_var] (yaml.IVal (VString "dflt"))).
  reflexivity.
Defined.

(** C8 at a client made by [NewClient] with the interval 10, on a backend
    whose refreshes fail after the first. Its goroutine makes its ticker
    with [time.NewTicker]; a tick whose [Refresh] fails is logged and
    leaves it in its loop; as long as the context is not cancelled the
    [Done] case cannot be taken; after [Close] it can, and the goroutine
    returns. It returns holding the ticker exactly as [time.NewTicker] made
    it: there is no call of [Stop] on the way, so the function itself
    releases no timer. *)
Theorem refresh_returns_without_Stop :
  ∃ w1 w2 t,
    time.NewTicker 10 = Ret t ∧
    run w_open [go_start 0; select_tick 0] = Some w1 ∧
    logs w1 = ["refresh failed"] ∧
    goroutine_at w1 0 0 (Looping t) ∧
    context.Done (contexts w1) (Some 0%nat) = false ∧
    refresh_done w1 0 = None ∧
    run w1 [call_Close 0; select_done 0] = Some w2 ∧
    context.Done (contexts w2) (Some 0%nat) = true ∧
    goroutine_at w2 0 0 (Returned t) ∧
    t ≠ time.Stop t.
Proof.
  eexists _, _, (time.mkTicker 10 false).
  split; [reflexivity|]. split; [reflexivity|]. split; [reflexivity|].
  split; [eexists; repeat split|]. split; [reflexivity|]. split; [reflexivity|].
  split; [reflexivity|]. split; [reflexivity|].
  split; [eexists; repeat split|]. discriminate.
Qed.

(** The loop of [w_looping] on a run that ends with the [Done] case. *)
Lemma refresh_loop_on_stub :
  goroutine_at w_returned 0 0 (Returned (time.mkTicker 10 false)).
Proof.
  assert (run w_looping [select_tick 0; call_Close 0; select_done 0] = Some w_returned)
    as Hrun by reflexivity.
  apply (refresh_loop_ends_only_on_Done w_looping 0 0 (time.mkTicker 10 false)
           [select_tick 0; call_Close 0; select_done 0] w_returned
           w_looping_linked w_looping_goroutine Hrun).
  apply list_elem_of_In. simpl. auto.
Defined.

End OnTestDoubles.

(** ** More on the accessors *)

Section AccessorResults.

Import history.

Context {B : Type} {R : source.Repository B} {Y : yaml.Codec}.

Implicit Types (w : World B) (c : option nat) (b : B) (name : string) (v : value).

(** A slice whose elements are all strings is the slice of its strings. *)
Lemma forallb_is_string_strings_of l :
  forallb is_string l = true → l = VString <$> strings_of l.
Proof.
  induction l as [|x l IH]; csimpl; [reflexivity|].
  intros [Hx Hl]%andb_prop. rewrite <- (IH Hl).
  destruct x; try discriminate Hx. reflexivity.
Qed.

(** [GetConfigString] returns a string and no error exactly on an open
    client and a key whose value has dynamic type [string], and the string
    is that value; [GetConfigFloat] does the same for [float64]. *)
Theorem GetConfigString_GetConfigFloat_succeed_iff w c name :
  (∀ d s, Client_GetConfigString w c name d = Ret (s, None) ↔
          ∃ b, reads_from w c b ∧ source.GetData b name = (VString s, true)) ∧
  (∀ d f, Client_GetConfigFloat w c name d = Ret (f, None) ↔
          ∃ b, reads_from w c b ∧ source.GetData b name = (VFloat f, true)).
Proof.
  split; intros d x; split.
  - unfold Client_GetConfigString.
    destruct (deref w c) as [cl|] eqn:Hc; simpl; [|discriminate].
    destruct (isClosed cl) eqn:Hcl; [discriminate|].
    destruct (backend w cl) as [b|] eqn:Hb; simpl; [|discriminate].
    destruct (source.GetData b name) as [v [|]] eqn:Hg; simpl; [|discriminate].
    destruct v; simpl; try discriminate.
    intros [= ->]. exists b. split; [exists cl|]; auto.
  - intros (b & Ho & Hg). rewrite (found_GetConfigString _ _ _ _ _ _ Ho Hg).
    reflexivity.
  - unfold Client_GetConfigFloat.
    destruct (deref w c) as [cl|] eqn:Hc; simpl; [|discriminate].
    destruct (isClosed cl) eqn:Hcl; [discriminate|].
    destruct (backend w cl) as [b|] eqn:Hb; simpl; [|discriminate].
    destruct (source.GetData b name) as [v [|]] eqn:Hg; simpl; [|discriminate].
    destruct v; simpl; try discriminate.
    intros [= ->]. exists b. split; [exists cl|]; auto.
  - intros (b & Ho & Hg). rewrite (found_GetConfigFloat _ _ _ _ _ _ Ho Hg).
    reflexivity.
Qed.

(** [GetConfigArrayOfStrings] returns a list and no error exactly on an
    open client and a key whose value is a slice of strings, and the list
    holds those strings in their order; on the empty slice it is the empty
    list, not the default. *)
Theorem GetConfigArrayOfStrings_succeeds_iff w c name d ss :
  Client_GetConfigArrayOfStrings w c name d = Ret (ss, None) ↔
  ∃ b, reads_from w c b ∧ source.GetData b name = (VSlice (VString <$> ss), true).
Proof.
  split.
  - unfold Client_GetConfigArrayOfStrings.
    destruct (deref w c) as [cl|] eqn:Hc; simpl; [|discriminate].
    destruct (isClosed cl) eqn:Hcl; [discriminate|].
    destruct (backend w cl) as [b|] eqn:Hb; simpl; [|discriminate].
    destruct (source.GetData b name) as [v [|]] eqn:Hg; simpl; [|discriminate].
    destruct v as [| | | | | |l|]; simpl; try discriminate.
    rewrite range_configArray_eq.
    destruct (forallb is_string l) eqn:Hall; [|discriminate].
    intros [= <-]. exists b. split; [exists cl; auto|].
    rewrite <- (forallb_is_string_strings_of _ Hall). exact Hg.
  - intros (b & Ho & Hg).
    rewrite (found_GetConfigArrayOfStrings _ _ _ _ _ _ Ho Hg).
    unfold is_string_slice. simpl.
    rewrite forallb_is_string_VString, strings_of_VString. reflexivity.
Qed.

(** Whenever a scalar accessor returns an error, the value it returns with
    it is the default it was given, and the error is one of the accessors'
    own: closed client, key not found, or value of another type. *)
Theorem scalar_accessor_error_means_default w c name :
  (∀ d x e, Client_GetConfigString w c name d = Ret (x, Some e) →
            x = d ∧ accessor_error e) ∧
  (∀ d x e, Client_GetConfigInt w c name d = Ret (x, Some e) →
            x = d ∧ accessor_error e) ∧
  (∀ d x e, Client_GetConfigFloat w c name d = Ret (x, Some e) →
            x = d ∧ accessor_error e) ∧
  (∀ d x e, Client_GetConfigArrayOfStrings w c name d = Ret (x, Some e) →
            x = d ∧ accessor_error e).
Proof.
  unfold accessor_error, type_mismatch_error.
  split; [|split; [|split]]; intros d x e;
    unfold Client_GetConfigString, Client_GetConfigInt, Client_GetConfigFloat,
      Client_GetConfigArrayOfStrings;
    (destruct (deref w c) as [cl|]; simpl; [|discriminate]);
    (destruct (isClosed cl); [intros [= <- <-]; auto|]);
    (destruct (backend w cl) as [b|]; simpl; [|discriminate]);
    (destruct (source.GetData b name) as [v [|]]; simpl;
       [|intros [= <- <-]; auto]).
  - destruct (assert_string v) as [s [|]]; simpl; [discriminate|].
    intros [= <- <-]. auto 6.
  - destruct (assert_int v) as [s [|]]; simpl; [discriminate|].
    intros [= <- <-]. auto 6.
  - destruct (assert_float64 v) as [s [|]]; simpl; [discriminate|].
    intros [= <- <-]. auto 6.
  - destruct (assert_slice v) as [l [|]]; simpl; [|intros [= <- <-]; auto 6].
    rewrite range_configArray_eq.
    destruct (forallb is_string l); [discriminate|]. intros [= <- <-]. auto 6.
Qed.

(** [GetConfig] returns no error exactly on an open client and a key that
    is there, when [yaml.Marshal] of the value and [yaml.Unmarshal] of the
    result into the destination both succeed; the caller's variables are
    then the ones [yaml.Unmarshal] left, and the default plays no part. *)
Theorem GetConfig_succeeds_iff w c name data dv st st' :
  Client_GetConfig w c name data dv st = Ret (st', None) ↔
  ∃ b config, reads_from w c b ∧ source.GetData b name = (config, true) ∧
    snd (yaml.Marshal config) = None ∧
    yaml.Unmarshal (fst (yaml.Marshal config)) data st = (st', None).
Proof.
  unfold Client_GetConfig, GetConfig_body. split.
  - destruct (deref w c) as [cl|] eqn:Hc; simpl; [|discriminate].
    destruct (isClosed cl) eqn:Hcl; [discriminate|].
    destruct (backend w cl) as [b|] eqn:Hb; simpl; [|discriminate].
    destruct (source.GetData b name) as [config [|]] eqn:Hg; simpl; [|discriminate].
    destruct (yaml.Marshal config) as [marshal [e1|]] eqn:Hm; simpl; [discriminate|].
    destruct (yaml.Unmarshal marshal data st) as [st1 [e2|]] eqn:Hu; simpl;
      [discriminate|].
    intros [= <-]. exists b, config. rewrite Hm. simpl.
    repeat split; auto. exists cl. auto.
  - intros (b & config & (cl & Hc & Hcl & Hb) & Hg & Hm & Hu).
    rewrite Hc. simpl. rewrite Hcl, Hb. simpl. rewrite Hg. simpl.
    destruct (yaml.Marshal config) as [marshal [e1|]]; simpl in *; [discriminate|].
    rewrite Hu. reflexivity.
Qed.

End AccessorResults.

(** ** More on the life of a client *)

Section Lifecycle.

Import history.

Context {B : Type} {R : source.Repository B}.

Implicit Types (w : World B) (c : option nat) (b : B) (a : Action).

(** What a call of [Close] that returns has done. *)
Lemma Close_inv w p w' :
  Close w (Some p) = Ret w' →
  ∃ cl k, clients w !! p = Some cl ∧ cancel cl = Some k ∧
    w' = set_clients (set_contexts w (context.cancel (contexts w) k))
           (<[p := mkClient (Repository cl) (RefreshInterval cl) true (Some k)]>
              (clients w)).
Proof.
  unfold Close, deref.
  destruct (clients w !! p) as [cl|] eqn:Hp; simpl; [|discriminate].
  destruct (cancel cl) as [k|] eqn:Hk; [|discriminate].
  intros [= <-]. exists cl, k. auto.
Qed.

(** What one action does to a client: nothing but, at most, set its closed
    flag. *)
Lemma step_client w a w' p cl :
  step w a = Some w' → clients w !! p = Some cl →
  ∃ cl', clients w' !! p = Some cl' ∧
    Repository cl' = Repository cl ∧ RefreshInterval cl' = RefreshInterval cl ∧
    cancel cl' = cancel cl ∧ (isClosed cl = true → isClosed cl' = true).
Proof.
  intros Hstep Hp.
  destruct a as [g0|g0|g0|ctx repository refreshInterval|c0|k0]; simpl in Hstep.
  - unfold refresh_start in Hstep.
    destruct (goroutines w !! g0) as [gr0|]; simpl in Hstep; [|discriminate].
    destruct (g_status gr0); try discriminate.
    match type of Hstep with match ?r with _ => _ end = _ =>
      destruct r as [t|msg] end; injection Hstep as <-; exists cl; auto.
  - unfold refresh_tick, deref, backend in Hstep.
    destruct (goroutines w !! g0) as [gr0|]; simpl in Hstep; [|discriminate].
    destruct (g_status gr0); try discriminate.
    destruct (clients w !! g_client gr0) as [cl0|].
    + destruct (repos w !! Repository cl0) as [b|].
      * destruct (source.Refresh b) as [b' [e|]]; injection Hstep as <-;
          exists cl; auto.
      * injection Hstep as <-. exists cl. auto.
    + injection Hstep as <-. exists cl. auto.
  - unfold refresh_done in Hstep.
    destruct (goroutines w !! g0) as [gr0|]; simpl in Hstep; [|discriminate].
    destruct (g_status gr0); try discriminate.
    destruct (context.Done _ _); [|discriminate].
    injection Hstep as <-. exists cl. auto.
  - destruct (repos w !! repository) as [b|] eqn:Hb.
    2:{ rewrite (NewClient_nil_repository _ _ _ _ Hb) in Hstep. discriminate. }
    rewrite (NewClient_eq _ _ _ _ _ Hb) in Hstep. cbv zeta in Hstep.
    exists cl.
    destruct (snd (source.Refresh b)); injection Hstep as <-; simpl;
      rewrite (lookup_app_l_Some _ _ _ _ Hp); auto.
  - destruct (match Close w (Some c0) with Ret w1 => Some w1 | Panic _ => None end)
      as [w1|] eqn:Hclose; [|discriminate].
    destruct (Close w (Some c0)) as [w2|] eqn:Hc0; [|discriminate].
    injection Hclose as ->. injection Hstep as ->.
    destruct (Close_inv _ _ _ Hc0) as (cl0 & k & Hcl0 & Hk & ->). simpl.
    destruct (decide (c0 = p)) as [->|Hne].
    + rewrite list_lookup_insert_eq by (eapply lookup_lt_Some; eauto).
      assert (cl0 = cl) as -> by congruence.
      eexists. split; [reflexivity|]. simpl. auto.
    + rewrite list_lookup_insert_ne by exact Hne. exists cl. auto.
  - injection Hstep as <-. exists cl. auto.
Qed.

(** A call of [NewClient] that succeeds makes the new client the one the
    package-level accessors go to, whichever client they went to before;
    the new client is open and reads from the backend as the one call of
    [Refresh] left it, and the clients there were are as they were. *)
Theorem NewClient_success_becomes_default {Y : yaml.Codec}
    w ctx repository refreshInterval w' p :
  NewClient w ctx repository refreshInterval = Ret (w', (Some p, None)) →
  defaultClient w' = Some p ∧
  (∃ b, repos w !! repository = Some b ∧ snd (source.Refresh b) = None ∧
        reads_from w' (Some p) (fst (source.Refresh b))) ∧
  (∀ q cl, clients w !! q = Some cl → q ≠ p ∧ clients w' !! q = Some cl) ∧
  (∀ name d, GetConfigString w' name d = Client_GetConfigString w' (Some p) name d) ∧
  (∀ name d, GetConfigInt w' name d = Client_GetConfigInt w' (Some p) name d) ∧
  (∀ name d, GetConfigFloat w' name d = Client_GetConfigFloat w' (Some p) name d) ∧
  (∀ name d, GetConfigArrayOfStrings w' name d
             = Client_GetConfigArrayOfStrings w' (Some p) name d) ∧
  (∀ name data dv st, GetConfig w' name data dv st
                      = Client_GetConfig w' (Some p) name data dv st).
Proof.
  destruct (repos w !! repository) as [b|] eqn:Hb.
  2:{ rewrite (NewClient_nil_repository _ _ _ _ Hb). discriminate. }
  rewrite (NewClient_eq _ _ _ _ _ Hb). cbv zeta.
  destruct (snd (source.Refresh b)) as [e|] eqn:He; [discriminate|].
  intros [= <- <-].
  pose proof (lookup_lt_Some _ _ _ Hb) as Hlt.
  split; [reflexivity|]. split; [|split].
  - exists b. repeat split; auto. eexists. unfold deref, backend. simpl.
    rewrite lookup_app_r by reflexivity. rewrite Nat.sub_diag. simpl.
    split; [reflexivity|]. split; [reflexivity|]. simpl.
    rewrite list_lookup_insert_eq by exact Hlt. reflexivity.
  - intros q cl Hq. pose proof (lookup_lt_Some _ _ _ Hq). simpl.
    split; [lia|]. apply lookup_app_l_Some, Hq.
  - repeat split; intros; reflexivity.
Qed.

(** [Close] changes two things and nothing else: in its own client the
    closed flag, the other three fields staying as they were; and among
    the contexts the cancelled mark of the one its client's [cancel]
    belongs to, every other context and that context's parent staying as
    they were.  The backends, the other clients, the goroutines, the log
    and [defaultClient] are as before. *)
Theorem Close_touches_its_client_only w p w' :
  Close w (Some p) = Ret w' →
  ∃ cl k, clients w !! p = Some cl ∧ cancel cl = Some k ∧
    clients w' !! p
      = Some (mkClient (Repository cl) (RefreshInterval cl) true (cancel cl)) ∧
    contexts w' = context.cancel (contexts w) k ∧
    length (contexts w') = length (contexts w) ∧
    (∀ i, i ≠ k → contexts w' !! i = contexts w !! i) ∧
    (∀ n, contexts w !! k = Some n →
          contexts w' !! k = Some (context.mkNode (context.parent n) true)) ∧
    repos w' = repos w ∧ goroutines w' = goroutines w ∧ logs w' = logs w ∧
    defaultClient w' = defaultClient w ∧
    length (clients w') = length (clients w) ∧
    (∀ q, q ≠ p → clients w' !! q = clients w !! q) ∧
    (∀ q b, q ≠ p → reads_from w (Some q) b → reads_from w' (Some q) b).
Proof.
  intros (cl & k & Hp & Hk & ->)%Close_inv. simpl.
  exists cl, k. split; [exact Hp|]. split; [exact Hk|].
  split; [|split; [|split; [|split; [|split]]]].
  - rewrite list_lookup_insert_eq by (eapply lookup_lt_Some; eauto).
    rewrite Hk. reflexivity.
  - reflexivity.
  - unfold context.cancel. destruct (contexts w !! k); [apply length_insert|reflexivity].
  - intros i Hne. unfold context.cancel.
    destruct (contexts w !! k); [|reflexivity].
    apply list_lookup_insert_ne. congruence.
  - intros n Hn. unfold context.cancel. rewrite Hn.
    apply list_lookup_insert_eq. eapply lookup_lt_Some; eauto.
  - repeat split; try reflexivity.
    + apply length_insert.
    + intros q Hne. apply list_lookup_insert_ne. congruence.
    + intros q b Hne (clq & Hq & Hopen & Hb). exists clq.
      unfold deref, backend in *. simpl.
      rewrite list_lookup_insert_ne by congruence. auto.
Qed.

(** [Close] does not reset [defaultClient]: once the client the
    package-level accessors go to has been closed, each of them returns
    the default with the closed-client error. *)
Theorem Close_default_client_goes_stale {Y : yaml.Codec} w p w' :
  defaultClient w = Some p → Close w (Some p) = Ret w' →
  defaultClient w' = Some p ∧
  (∀ name d, GetConfigString w' name d = Ret (d, Some "client is closed")) ∧
  (∀ name d, GetConfigInt w' name d = Ret (d, Some "client is closed")) ∧
  (∀ name d, GetConfigFloat w' name d = Ret (d, Some "client is closed")) ∧
  (∀ name d, GetConfigArrayOfStrings w' name d = Ret (d, Some "client is closed")) ∧
  (∀ name data dv st, GetConfig w' name data dv st = Ret (st, Some "client is closed")).
Proof.
  intros Hd Hclose.
  destruct (Close_inv _ _ _ Hclose) as (cl & k & Hp & Hk & Hw').
  destruct (Close_closed _ _ _ _ Hp Hk) as (w1 & Hclose1 & Hcl & _).
  assert (w1 = w') as -> by congruence.
  assert (defaultClient w' = Some p) as Hd' by (rewrite Hw'; exact Hd).
  unfold GetConfigString, GetConfigInt, GetConfigFloat, GetConfigArrayOfStrings,
    GetConfig. rewrite Hd'.
  split; [reflexivity|]. split; [|split; [|split; [|split]]]; intros.
  - apply closed_GetConfigString, Hcl.
  - apply closed_GetConfigInt, Hcl.
  - apply closed_GetConfigFloat, Hcl.
  - apply closed_GetConfigArrayOfStrings, Hcl.
  - apply closed_GetConfig, Hcl.
Qed.

(** A second [Close] on a closed client returns and changes nothing. *)
Theorem Close_twice w p w' :
  Close w (Some p) = Ret w' → Close w' (Some p) = Ret w'.
Proof.
  intros (cl & k & Hp & Hk & ->)%Close_inv.
  pose proof (lookup_lt_Some _ _ _ Hp) as Hlt.
  unfold Close, deref. simpl.
  rewrite list_lookup_insert_eq by exact Hlt. simpl.
  rewrite list_insert_insert_eq. unfold set_clients, set_contexts. simpl.
  f_equal. f_equal.
  unfold context.cancel at 1.
  destruct (context.cancel (contexts w) k !! k) as [n|] eqn:Hn; [|reflexivity].
  apply list_insert_id. rewrite Hn. f_equal.
  unfold context.cancel in Hn. destruct (contexts w !! k) as [n0|] eqn:Hn0.
  - rewrite list_lookup_insert_eq in Hn by (eapply lookup_lt_Some; eauto).
    injection Hn as <-. reflexivity.
  - congruence.
Qed.

(** A closed client stays closed, whatever the process does next: no
    action clears the flag, so its scalar accessors return the default and
    the closed-client error from then on. *)
Theorem closed_for_good w acts w' p :
  closed w (Some p) → run w acts = Some w' →
  closed w' (Some p) ∧
  (∀ name d, Client_GetConfigString w' (Some p) name d
             = Ret (d, Some "client is closed")) ∧
  (∀ name d, Client_GetConfigInt w' (Some p) name d
             = Ret (d, Some "client is closed")) ∧
  (∀ name d, Client_GetConfigFloat w' (Some p) name d
             = Ret (d, Some "client is closed")) ∧
  (∀ name d, Client_GetConfigArrayOfStrings w' (Some p) name d
             = Ret (d, Some "client is closed")).
Proof.
  intros Hcl Hrun.
  assert (closed w' (Some p)) as Hcl'.
  { revert w Hcl Hrun. induction acts as [|a acts IH]; intros w Hcl; simpl.
    - intros [= <-]. exact Hcl.
    - destruct (step w a) as [w1|] eqn:Hstep; simpl; [|discriminate].
      apply IH. destruct Hcl as (cl & Hc & Hflag). unfold deref in Hc.
      destruct (clients w !! p) as [cl0|] eqn:Hp; [|discriminate].
      injection Hc as ->.
      destruct (step_client _ _ _ _ _ Hstep Hp) as (cl' & Hp' & _ & _ & _ & Hkeep).
      exists cl'. unfold deref. rewrite Hp'. auto. }
  split; [exact Hcl'|]. split; [|split; [|split]]; intros.
  - apply closed_GetConfigString, Hcl'.
  - apply closed_GetConfigInt, Hcl'.
  - apply closed_GetConfigFloat, Hcl'.
  - apply closed_GetConfigArrayOfStrings, Hcl'.
Qed.

End Lifecycle.

(** ** More on the refresh goroutine *)

Section GoroutineLife.

Import history.

Context {B : Type} {R : source.Repository B}.

Implicit Types (w : World B) (b : B) (a : Action) (gr : Goroutine).

(** A turn of the loop on the ticker makes the backend as its [Refresh]
    left it visible to the accessors of the client, whether that call
    returned an error (which is logged) or not: the client keeps no
    snapshot of its own. *)
Theorem tick_then_read_sees_refresh w g gr t p b :
  goroutines w !! g = Some gr → g_status gr = Looping t → g_client gr = p →
  reads_from w (Some p) b →
  ∃ w1, refresh_tick w g = Some w1 ∧
        reads_from w1 (Some p) (fst (source.Refresh b)) ∧
        logs w1 = logs w ++ option_list (snd (source.Refresh b)) ∧
        (∀ name d s,
           source.GetData (fst (source.Refresh b)) name = (VString s, true) →
           Client_GetConfigString w1 (Some p) name d = Ret (s, None)).
Proof.
  intros Hg Hs <- (cl & Hc & Hopen & Hb).
  assert (∃ w1, refresh_tick w g = Some w1 ∧
                reads_from w1 (Some (g_client gr)) (fst (source.Refresh b)) ∧
                logs w1 = logs w ++ option_list (snd (source.Refresh b)))
    as (w1 & Htick & Hreads & Hlogs).
  { unfold deref, backend in Hc, Hb.
    destruct (clients w !! g_client gr) as [cl0|] eqn:Hp; [|discriminate].
    injection Hc as ->.
    destruct (repos w !! Repository cl) as [b0|] eqn:Hr; [|discriminate].
    injection Hb as ->. pose proof (lookup_lt_Some _ _ _ Hr) as Hlt.
    unfold refresh_tick, deref, backend. rewrite Hg. simpl. rewrite Hs, Hp, Hr.
    assert (∀ w2, clients w2 = clients w →
              repos w2 = <[Repository cl := fst (source.Refresh b)]> (repos w) →
              reads_from w2 (Some (g_client gr)) (fst (source.Refresh b))) as Hread.
    { intros w2 Hcs Hrs. exists cl. unfold deref, backend. rewrite Hcs, Hrs, Hp.
      rewrite list_lookup_insert_eq by exact Hlt. auto. }
    destruct (source.Refresh b) as [b' [e|]]; simpl; eexists;
      (split; [reflexivity|]); (split; [apply Hread; reflexivity|]); simpl.
    - reflexivity.
    - rewrite app_nil_r. reflexivity. }
  exists w1. repeat split; auto.
  intros name d s Hdata. rewrite (found_GetConfigString _ _ _ _ _ _ Hreads Hdata).
  reflexivity.
Qed.

(** [n] turns of the loop on the ticker are [n] calls of [Refresh] on the
    client's backend, one after the other; the errors they return are
    appended to the log in that order, and the goroutine is still in its
    loop. *)
Theorem ticks_call_Refresh_each_time n w g k t b :
  goroutine_at w g k (Looping t) → refreshes w g b →
  ∃ w', run w (replicate n (select_tick g)) = Some w' ∧
        goroutine_at w' g k (Looping t) ∧
        refreshes w' g (fst (Refresh_times n b)) ∧
        logs w' = logs w ++ snd (Refresh_times n b).
Proof.
  revert w b. induction n as [|n IH]; intros w b Hloop Href; simpl.
  - exists w. rewrite app_nil_r. auto.
  - destruct Hloop as (gr & Hg & Hk & Hs).
    destruct Href as (gr' & cl & Hg' & Hcl & Hb).
    assert (gr' = gr) as -> by congruence.
    pose proof (lookup_lt_Some _ _ _ Hb) as Hlt.
    unfold refresh_tick, deref, backend. rewrite Hg. simpl. rewrite Hs, Hcl, Hb.
    destruct (source.Refresh b) as [b' err] eqn:Hrefresh.
    set (w1 := set_repos w (<[Repository cl := b']> (repos w))).
    assert (∀ w2, goroutines w2 = goroutines w → clients w2 = clients w →
              repos w2 = repos w1 →
              goroutine_at w2 g k (Looping t) ∧ refreshes w2 g b') as Hnext.
    { intros w2 Hgs Hcs Hrs. split.
      - exists gr. rewrite Hgs. auto.
      - exists gr, cl. rewrite Hgs, Hcs, Hrs. simpl.
        rewrite list_lookup_insert_eq by exact Hlt. auto. }
    destruct (Refresh_times n b') as [b'' errs] eqn:Htimes.
    destruct err as [e|]; simpl.
    + destruct (Hnext (log_error w1 e)) as [Hloop1 Href1]; try reflexivity.
      destruct (IH _ _ Hloop1 Href1) as (w' & Hrun & Hloop' & Href' & Hlogs).
      rewrite Htimes in Href', Hlogs. simpl in *.
      exists w'. repeat split; auto. rewrite Hlogs, <- app_assoc. reflexivity.
    + destruct (Hnext w1) as [Hloop1 Href1]; try reflexivity.
      destruct (IH _ _ Hloop1 Href1) as (w' & Hrun & Hloop' & Href' & Hlogs).
      rewrite Htimes in Href', Hlogs. simpl in *.
      exists w'. repeat split; auto.
Qed.

(** [NewClient] does not look at the refresh interval: with an interval
    that is not positive it returns the client and no error all the same,
    and the goroutine it started panics in [time.NewTicker] when it runs;
    with a positive interval the goroutine enters its loop with a ticker
    of that period. *)
Theorem NewClient_does_not_check_interval w ctx repository refreshInterval w' p :
  NewClient w ctx repository refreshInterval = Ret (w', (Some p, None)) →
  ∃ w'', step w' (go_start (length (goroutines w))) = Some w'' ∧
    goroutine_at w'' (length (goroutines w)) (length (contexts w))
      (if refreshInterval <=? 0
       then Panicked "non-positive interval for NewTicker"
       else Looping (time.mkTicker refreshInterval false)).
Proof.
  destruct (repos w !! repository) as [b|] eqn:Hb.
  2:{ rewrite (NewClient_nil_repository _ _ _ _ Hb). discriminate. }
  rewrite (NewClient_eq _ _ _ _ _ Hb). cbv zeta.
  destruct (snd (source.Refresh b)) as [e|] eqn:He; [discriminate|].
  intros [= <- <-]. simpl. unfold refresh_start, deref. simpl.
  rewrite lookup_app_r by reflexivity. rewrite Nat.sub_diag. simpl.
  rewrite lookup_app_r by reflexivity. rewrite Nat.sub_diag. simpl.
  unfold time.NewTicker.
  destruct (refreshInterval <=? 0); eexists; (split; [reflexivity|]);
    eexists; simpl;
    (rewrite list_lookup_insert_eq by (rewrite length_app; simpl; lia));
    repeat split.
Qed.

(** A goroutine that has returned does nothing more: in whatever the
    process does next there is no action of that goroutine, so it never
    calls [Refresh] again. *)
Theorem returned_goroutine_never_refreshes w acts w' g k t :
  goroutine_at w g k (Returned t) → run w acts = Some w' →
  goroutine_at w' g k (Returned t) ∧
  (go_start g ∉ acts) ∧ (select_tick g ∉ acts) ∧ (select_done g ∉ acts).
Proof.
  revert w. induction acts as [|a acts IH]; intros w Hret; simpl.
  - intros [= <-]. repeat split; [assumption|apply not_elem_of_nil..].
  - destruct (step w a) as [w1|] eqn:Hstep; simpl; [|discriminate].
    intros Hrun.
    destruct (IH _ (step_returned _ _ _ _ _ _ Hret Hstep) Hrun)
      as (Hret' & Hn1 & Hn2 & Hn3).
    assert (a ≠ go_start g ∧ a ≠ select_tick g ∧ a ≠ select_done g)
      as (Ha1 & Ha2 & Ha3).
    { destruct Hret as (gr & Hg & _ & Hs).
      repeat split; intros ->; simpl in Hstep;
        unfold refresh_start, refresh_tick, refresh_done in Hstep;
        rewrite Hg in Hstep; simpl in Hstep; rewrite Hs in Hstep; discriminate. }
    split; [assumption|].
    repeat split; apply not_elem_of_cons; split; congruence.
Qed.

Lemma cancel_lookup (cs : list context.Node) k i n :
  cs !! i = Some n → ∃ n', context.cancel cs k !! i = Some n'.
Proof.
  intros Hi. unfold context.cancel. destruct (cs !! k) as [nk|]; [|eauto].
  destruct (decide (k = i)) as [->|Hne].
  - rewrite list_lookup_insert_eq by (eapply lookup_lt_Some; eauto). eauto.
  - rewrite list_lookup_insert_ne by exact Hne. eauto.
Qed.

Lemma paired_start (backends : list B) : paired (start backends).
Proof. intros g gr Hg. simpl in Hg. rewrite lookup_nil in Hg. discriminate. Qed.

Lemma paired_set_status w g0 gr0 s :
  goroutines w !! g0 = Some gr0 → paired w → paired (set_status w g0 gr0 s).
Proof.
  intros H0 Hp g gr [(-> & <- & _)|(_ & Hg)]%list_lookup_insert_Some; simpl;
    eauto.
Qed.

(** Every action keeps the goroutines paired with their clients. *)
Lemma step_paired w a w' : paired w → step w a = Some w' → paired w'.
Proof.
  intros Hp Hstep.
  destruct a as [g0|g0|g0|ctx repository refreshInterval|c0|k0]; simpl in Hstep.
  - unfold refresh_start in Hstep.
    destruct (goroutines w !! g0) as [gr0|] eqn:H0; simpl in Hstep; [|discriminate].
    destruct (g_status gr0); try discriminate.
    match type of Hstep with match ?r with _ => _ end = _ =>
      destruct r as [t|msg] end;
      injection Hstep as <-; apply paired_set_status; assumption.
  - unfold refresh_tick, deref, backend in Hstep.
    destruct (goroutines w !! g0) as [gr0|] eqn:H0; simpl in Hstep; [|discriminate].
    destruct (g_status gr0); try discriminate.
    destruct (clients w !! g_client gr0) as [cl|].
    + destruct (repos w !! Repository cl) as [b|].
      * destruct (source.Refresh b) as [b' [e|]]; injection Hstep as <-; exact Hp.
      * injection Hstep as <-. apply paired_set_status; assumption.
    + injection Hstep as <-. apply paired_set_status; assumption.
  - unfold refresh_done in Hstep.
    destruct (goroutines w !! g0) as [gr0|] eqn:H0; simpl in Hstep; [|discriminate].
    destruct (g_status gr0); try discriminate.
    destruct (context.Done _ _); [|discriminate].
    injection Hstep as <-. apply paired_set_status; assumption.
  - destruct (repos w !! repository) as [b|] eqn:Hb.
    2:{ rewrite (NewClient_nil_repository _ _ _ _ Hb) in Hstep. discriminate. }
    rewrite (NewClient_eq _ _ _ _ _ Hb) in Hstep. cbv zeta in Hstep.
    assert (∀ g gr, goroutines w !! g = Some gr →
      ∃ cl n,
        (clients w ++ [mkClient repository refreshInterval false
                         (Some (length (contexts w)))]) !! g_client gr = Some cl ∧
        cancel cl = Some (g_ctx gr) ∧
        (contexts w ++ [context.mkNode ctx false]) !! g_ctx gr = Some n) as Hold.
    { intros g gr Hg. destruct (Hp _ _ Hg) as (cl & n & Hcl & Hk & Hn).
      exists cl, n. repeat split; auto; apply lookup_app_l_Some; assumption. }
    destruct (snd (source.Refresh b)); injection Hstep as <-; intros g gr; simpl.
    + apply Hold.
    + intros [Hg|[_ Hg]]%lookup_app_Some; [exact (Hold _ _ Hg)|].
      destruct (g - length (goroutines w))%nat; simpl in Hg; [|discriminate].
      injection Hg as <-. simpl. eexists _, _.
      rewrite !lookup_app_r by reflexivity. rewrite !Nat.sub_diag. simpl.
      repeat split.
  - destruct (Close w (Some c0)) as [w2|] eqn:Hc0; [|discriminate].
    injection Hstep as ->.
    destruct (Close_inv _ _ _ Hc0) as (cl0 & k & Hcl0 & Hk & ->).
    intros g gr Hg. simpl in *.
    destruct (Hp _ _ Hg) as (cl & n & Hcl & Hkc & Hn).
    destruct (cancel_lookup _ k _ _ Hn) as [n' Hn'].
    destruct (decide (c0 = g_client gr)) as [->|Hne].
    + rewrite list_lookup_insert_eq by (eapply lookup_lt_Some; eauto).
      assert (cl0 = cl) as -> by congruence.
      eexists _, n'. repeat split; [|exact Hn']. simpl. congruence.
    + rewrite list_lookup_insert_ne by exact Hne. eauto.
  - injection Hstep as <-. intros g gr Hg. simpl in *.
    destruct (Hp _ _ Hg) as (cl & n & Hcl & Hkc & Hn).
    destruct (cancel_lookup _ k0 _ _ Hn) as [n' Hn']. eauto.
Qed.

Lemma run_paired acts w w' : paired w → run w acts = Some w' → paired w'.
Proof.
  revert w. induction acts as [|a acts IH]; intros w Hp; simpl.
  - intros [= <-]. exact Hp.
  - destruct (step w a) as [w1|] eqn:Hstep; simpl; [|discriminate].
    apply IH. eapply step_paired; eauto.
Qed.

(** In every world the process can reach from its start, the pointers a
    looping goroutine follows lead somewhere, so a turn of its loop on the
    ticker never panics and ends no goroutine. *)
Theorem reachable_tick_never_panics (backends : list B) acts w g gr t :
  run (start backends) acts = Some w →
  goroutines w !! g = Some gr → g_status gr = Looping t →
  ∃ cl b w1, clients w !! g_client gr = Some cl ∧
             repos w !! Repository cl = Some b ∧
             refresh_tick w g = Some w1 ∧ goroutines w1 = goroutines w.
Proof.
  intros Hrun Hg Hs.
  assert (linked w) as Hl.
  { apply (run_linked acts (start backends)); [|exact Hrun].
    split; intros i x Hi; simpl in Hi; rewrite lookup_nil in Hi; discriminate. }
  destruct (refresh_tick_eq _ _ _ _ Hl Hg Hs) as (cl & b & Hcl & Hb & ->).
  exists cl, b. eexists. repeat split; auto.
  destruct (snd (source.Refresh b)); reflexivity.
Qed.

(** In every world the process can reach from its start, [Close] on the
    client of a looping goroutine returns and closes the [Done] channel
    that goroutine waits on: the [Done] case of its [select] can be taken
    at once, and the goroutine then returns. *)
Theorem Close_lets_goroutine_return (backends : list B) acts w g gr t :
  run (start backends) acts = Some w →
  goroutines w !! g = Some gr → g_status gr = Looping t →
  ∃ w' w'', Close w (Some (g_client gr)) = Ret w' ∧
            closed w' (Some (g_client gr)) ∧
            context.Done (contexts w') (Some (g_ctx gr)) = true ∧
            refresh_done w' g = Some w'' ∧
            goroutine_at w'' g (g_ctx gr) (Returned t).
Proof.
  intros Hrun Hg Hs.
  pose proof (run_paired _ _ _ (paired_start backends) Hrun) as Hp.
  destruct (Hp _ _ Hg) as (cl & n & Hcl & Hk & Hn).
  destruct (Close_closed _ _ _ _ Hcl Hk) as (w' & Hclose & Hclosed & Hctx & _ & Hgs).
  assert (context.Done (contexts w') (Some (g_ctx gr)) = true) as Hdone.
  { rewrite Hctx. eapply cancel_Done, Hn. }
  assert (goroutines w' !! g = Some gr) as Hg' by (rewrite Hgs; exact Hg).
  exists w'. eexists. split; [exact Hclose|]. split; [exact Hclosed|].
  split; [exact Hdone|].
  rewrite (refresh_done_eq _ _ _ _ Hg' Hs), Hdone.
  split; [reflexivity|].
  exists (mkGoroutine (g_ctx gr) (g_client gr) (Returned t)). simpl.
  rewrite list_lookup_insert_eq by (eapply lookup_lt_Some; eauto). auto.
Qed.

End GoroutineLife.

(** ** These properties on the test doubles *)

Section MoreOnTestDoubles.

Import scenario history.

Lemma w_looping_reached :
  run (start [stub.fails_first; stub.fails_later])
      [call_NewClient None 1 10; go_start 0] = Some w_looping.
Proof. reflexivity. Qed.

Lemma w_looping_lookup :
  goroutines w_looping !! 0%nat
    = Some (mkGoroutine 0 0 (Looping (time.mkTicker 10 false))).
Proof. reflexivity. Qed.

Lemma w_looping_refreshes :
  refreshes w_looping 0 (fst (source.Refresh stub.fails_later)).
Proof. eexists _, _. repeat split. Qed.

(** The second successful [NewClient] of [v2] takes the package-level
    accessors from the first client to the second. *)
Lemma NewClient_twice_on_stubs :
  defaultClient v1 = Some 0%nat ∧ defaultClient v2 = Some 1%nat ∧
  GetConfigString v2 "name" "dflt" = Ret ("second", None).
Proof.
  assert (NewClient v1 None 1 0 = Ret (v2, (Some 1%nat, None))) as Hnew
    by reflexivity.
  destruct (NewClient_success_becomes_default (Y := stub.partial_codec)
              v1 None 1 0 v2 1 Hnew) as (Hd & _ & _ & Hstring & _).
  split; [reflexivity|]. split; [exact Hd|]. rewrite Hstring. reflexivity.
Defined.

(** [Close] on the first client of [v2] leaves the second one reading from
    its backend. *)
Lemma Close_first_of_two :
  reads_from (default v2 (step v2 (call_Close 0))) (Some 1%nat)
    (fst (source.Refresh always_ok)).
Proof.
  assert (Close v2 (Some 0%nat) = Ret (default v2 (step v2 (call_Close 0))))
    as Hclose by reflexivity.
  assert (reads_from v2 (Some 1%nat) (fst (source.Refresh always_ok))) as Hreads
    by (eexists; repeat split).
  destruct (Close_touches_its_client_only v2 0 _ Hclose)
    as (cl & k & _ & _ & _ & _ & _ & _ & _ & _ & _ & _ & _ & _ & _ & Hother).
  apply Hother; [discriminate|exact Hreads].
Defined.

(** After [Close] on the only client of [w_open] the package-level
    accessors still go to it. *)
Lemma Close_default_on_stub :
  defaultClient w_closed = Some 0%nat ∧
  GetConfigString w_closed "name" "dflt" = Ret ("dflt", Some "client is closed").
Proof.
  assert (defaultClient w_open = Some 0%nat) as Hd by reflexivity.
  assert (Close w_open (Some 0%nat) = Ret w_closed) as Hclose by reflexivity.
  destruct (Close_default_client_goes_stale (Y := stub.partial_codec)
              w_open 0 w_closed Hd Hclose) as (Hd' & Hstring & _).
  split; [exact Hd'|apply Hstring].
Defined.

Lemma Close_twice_on_stub : Close w_closed (Some 0%nat) = Ret w_closed.
Proof.
  assert (Close w_open (Some 0%nat) = Ret w_closed) as Hclose by reflexivity.
  exact (Close_twice w_open 0 w_closed Hclose).
Defined.

(** The closed client of [w_closed] after its goroutine has started,
    refreshed twice and returned. *)
Lemma closed_for_good_on_stub :
  closed (default w_closed
            (run w_closed [go_start 0; select_tick 0; select_tick 0; select_done 0]))
    (Some 0%nat).
Proof.
  assert (run w_closed [go_start 0; select_tick 0; select_tick 0; select_done 0]
          = Some (default w_closed
                    (run w_closed [go_start 0; select_tick 0; select_tick 0;
                                   select_done 0]))) as Hrun by reflexivity.
  apply (closed_for_good w_closed _ _ 0 w_closed_closed Hrun).
Defined.

(** A tick in [w_looping]: the refresh fails, and the client reads from
    the backend as that refresh left it. *)
Lemma tick_then_read_on_stub :
  ∃ w1, refresh_tick w_looping 0 = Some w1 ∧
        logs w1 = ["refresh failed"] ∧
        Client_GetConfigString w1 (Some 0%nat) "name" "dflt" = Ret ("remote", None).
Proof.
  destruct (tick_then_read_sees_refresh w_looping 0 _ _ 0 _
              w_looping_lookup eq_refl eq_refl w_open_reads_from)
    as (w1 & Htick & _ & Hlogs & Hstring).
  exists w1. split; [exact Htick|]. split; [exact Hlogs|].
  apply Hstring. reflexivity.
Defined.

(** Three ticks in [w_looping]: three failed refreshes in the log, and the
    backend has counted four calls. *)
Lemma three_ticks_on_stub :
  ∃ w', run w_looping (replicate 3 (select_tick 0)) = Some w' ∧
        logs w' = ["refresh failed"; "refresh failed"; "refresh failed"] ∧
        stub.calls <$> repos w' !! 1%nat = Some 4%nat.
Proof.
  destruct (ticks_call_Refresh_each_time 3 w_looping 0 0 _ _
              w_looping_goroutine w_looping_refreshes)
    as (w' & Hrun & _ & (gr & cl & Hg & Hcl & Hb) & Hlogs).
  exists w'. split; [exact Hrun|]. split; [exact Hlogs|].
  injection Hrun as <-. reflexivity.
Defined.

(** The second client of [v2] was made with the interval 0: [NewClient]
    returned it, and its goroutine panics when it starts. *)
Lemma zero_interval_on_stub :
  ∃ w'', step v2 (go_start 1) = Some w'' ∧
         goroutine_at w'' 1 1 (Panicked "non-positive interval for NewTicker").
Proof.
  assert (NewClient v1 None 1 0 = Ret (v2, (Some 1%nat, None))) as Hnew
    by reflexivity.
  exact (NewClient_does_not_check_interval v1 None 1 0 v2 1 Hnew).
Defined.

(** The goroutine of [w_returned] stays returned when another client is
    made. *)
Lemma returned_on_stub :
  goroutine_at (default w_returned (run w_returned [call_NewClient None 0 10]))
    0 0 (Returned (time.mkTicker 10 false)).
Proof.
  assert (run w_returned [call_NewClient None 0 10]
          = Some (default w_returned (run w_returned [call_NewClient None 0 10])))
    as Hrun by reflexivity.
  assert (goroutine_at w_returned 0 0 (Returned (time.mkTicker 10 false))) as Hret
    by (eexists; repeat split).
  apply (returned_goroutine_never_refreshes w_returned _ _ 0 0 _ Hret Hrun).
Defined.

(** The tick of the goroutine of [w_looping], a world reached from the
    start. *)
Lemma reachable_tick_on_stub :
  ∃ cl b w1, clients w_looping !! 0%nat = Some cl ∧
             repos w_looping !! Repository cl = Some b ∧
             refresh_tick w_looping 0 = Some w1 ∧
             goroutines w1 = goroutines w_looping.
Proof.
  exact (reachable_tick_never_panics _ _ w_looping 0 _ _
           w_looping_reached w_looping_lookup eq_refl).
Defined.

(** [Close] in [w_looping], a world reached from the start, and the return
    of its goroutine. *)
Lemma Close_returns_goroutine_on_stub :
  ∃ w' w'', Close w_looping (Some 0%nat) = Ret w' ∧
            closed w' (Some 0%nat) ∧
            context.Done (contexts w') (Some 0%nat) = true ∧
            refresh_done w' 0 = Some w'' ∧
            goroutine_at w'' 0 0 (Returned (time.mkTicker 10 false)).
Proof.
  exact (Close_lets_goroutine_return _ _ w_looping 0 _ _
           w_looping_reached w_looping_lookup eq_refl).
Defined.

(** [GetConfig] of a string into a string variable, with the decoder of the
    test doubles: no error, and the variable holds the backend's value. *)
Lemma GetConfig_success_on_stub :
  Client_GetConfig (Y := stub.partial_codec) w_open (Some 0%nat) "name"
      (yaml.IPtr 0) (yaml.IVal (VString "dflt")) [name_var]
    = Ret ([VString "remote"], None).
Proof.
  apply (GetConfig_succeeds_iff (Y := stub.partial_codec)).
  exists (fst (source.Refresh stub.fails_later)), (VString "remote").
  split; [exact w_open_reads_from|]. repeat split.
Defined.

End MoreOnTestDoubles.

(** ** Cancellation is not lost *)

Section AfterCancellation.

Import scenario.

(** Once the context of a looping goroutine is done, it stays so: after
    any further actions in which the goroutine did not take the [Done]
    case (turns on the ticker included) it is still in its loop, the [Done]
    case can still be taken, and taking it makes the goroutine return. *)
Theorem cancelled_loop_can_always_return
    {B : Type} {R : source.Repository B} (w : World B) g k t acts w' :
  linked w → goroutine_at w g k (Looping t) →
  context.Done (contexts w) (Some k) = true →
  run w acts = Some w' → (select_done g ∉ acts) →
  goroutine_at w' g k (Looping t) ∧
  context.Done (contexts w') (Some k) = true ∧
  ∃ w'', refresh_done w' g = Some w'' ∧ goroutine_at w'' g k (Returned t).
Proof.
  intros Hl Hloop Hdone Hrun Hnot.
  destruct (run_looping _ _ _ _ _ _ Hl Hloop Hrun) as [[_ Hloop']|[Hin _]];
    [|contradiction].
  pose proof (run_Done _ _ _ _ Hrun Hdone) as Hdone'.
  split; [exact Hloop'|]. split; [exact Hdone'|].
  destruct Hloop' as (gr & Hg & <- & Hs).
  rewrite (refresh_done_eq _ _ _ _ Hg Hs), Hdone'.
  eexists. split; [reflexivity|].
  exists (mkGoroutine (g_ctx gr) (g_client gr) (Returned t)). simpl.
  rewrite list_lookup_insert_eq by (eapply lookup_lt_Some; eauto). auto.
Qed.

(** [w_looping] after [Close] and two more turns on the ticker. *)
Lemma cancelled_loop_on_stub :
  ∃ w1 w2 w3,
    Close w_looping (Some 0%nat) = Ret w1 ∧
    run w1 [select_tick 0; select_tick 0] = Some w2 ∧
    goroutine_at w2 0 0 (Looping (time.mkTicker 10 false)) ∧
    refresh_done w2 0 = Some w3 ∧
    goroutine_at w3 0 0 (Returned (time.mkTicker 10 false)).
Proof.
  assert (∃ w1, Close w_looping (Some 0%nat) = Ret w1 ∧
                step w_looping (call_Close 0) = Some w1) as (w1 & Hclose & Hstep)
    by (eexists; split; reflexivity).
  assert (∃ w2, run w1 [select_tick 0; select_tick 0] = Some w2) as (w2 & Hrun)
    by (injection Hstep as <-; eexists; reflexivity).
  assert (linked w1) as Hl1 by exact (step_linked _ _ _ w_looping_linked Hstep).
  assert (goroutine_at w1 0 0 (Looping (time.mkTicker 10 false))) as Hloop1
    by (injection Hstep as <-; eexists; repeat split).
  assert (context.Done (contexts w1) (Some 0%nat) = true) as Hdone1
    by (injection Hstep as <-; reflexivity).
  assert (select_done 0 ∉ [select_tick 0; select_tick 0]) as Hnot.
  { intros Hin. apply list_elem_of_In in Hin. simpl in Hin.
    destruct Hin as [Hin|[Hin|[]]]; discriminate Hin. }
  destruct (cancelled_loop_can_always_return w1 0 0 _ _ w2 Hl1 Hloop1 Hdone1 Hrun Hnot)
    as (Hloop2 & _ & w3 & Hdone & Hret).
  exists w1, w2, w3. auto.
Defined.

End AfterCancellation.
